(** * sarv: the static file server's asset index and request pipeline

    A shallow embedding of [src/static-serve.ts] (with the types of the
    repository's [types.ts]): the index builder ([getFilePathInfo],
    [fillStaticPaths], [getStaticPaths]), the path resolver
    ([getFileToServe]), the cache headers ([getHeaders]), the two senders
    ([sendNotModified], [sendFile]) and the middleware ([staticServe]).

    JavaScript strings are Rocq strings (the server compares and cuts them,
    and never looks inside a character), JavaScript numbers that hold sizes,
    times and ages are integers ([Z]), and the objects used as dictionaries
    ([AvailableFiles], the header objects, the request headers) are finite
    maps with string keys.  The header objects are read under fixed names;
    the index is read under names that come from the request and from the
    options, so what a plain object inherits counts there: [PlainObject].
    Paths are POSIX paths.  The calls of the index builder run together, and
    the order in which they complete is part of the file system it runs
    on. *)

From Stdlib Require Import ZArith String Ascii List Bool Lia.
From stdpp Require Import base option gmap strings list fin_maps pretty.

Import ListNotations.
Local Open Scope string_scope.
Local Open Scope Z_scope.

(** ** JavaScript string primitives used by the server *)

Module JsString.

(** [s.charAt(s.length - 1)]: the last character, nothing for [""]. *)
Fixpoint lastChar (s : string) : option ascii :=
  match s with
  | EmptyString => None
  | String c EmptyString => Some c
  | String _ rest => lastChar rest
  end.

(** [s.charAt(s.length - 1) === '/']. *)
Definition endsWithSlash (s : string) : bool :=
  match lastChar s with
  | Some c => Ascii.eqb c "/"%char
  | None => false
  end.

(** [s.substr(n)]: what is left of [s] after its first [n] characters. *)
Fixpoint substr (s : string) (n : nat) : string :=
  match n, s with
  | O, _ => s
  | S _, EmptyString => EmptyString
  | S n', String _ rest => substr rest n'
  end.

(** [s.startsWith(p)]. *)
Fixpoint startsWith (p s : string) : bool :=
  match p, s with
  | EmptyString, _ => true
  | String _ _, EmptyString => false
  | String a p', String b s' => Ascii.eqb a b && startsWith p' s'
  end.

(** [s.includes(t)]: [t] starts at some position of [s]. *)
Fixpoint includes (s t : string) : bool :=
  startsWith t s ||
  match s with
  | EmptyString => false
  | String _ rest => includes rest t
  end.

(** [s.endsWith(t)]. *)
Fixpoint endsWith (s t : string) : bool :=
  String.eqb s t ||
  match s with
  | EmptyString => false
  | String _ rest => endsWith rest t
  end.

(** The truthiness of a string in a condition: [""] is falsy. *)
Definition truthy (s : string) : bool :=
  match s with
  | EmptyString => false
  | String _ _ => true
  end.

End JsString.

(** ** The data model of [types.ts] *)

Record CompressedInfo := mkCompressedInfo {
  ci_path : string;
  ci_size : Z
}.

Record AvailableFile := mkAvailableFile {
  path : string;
  contentType : option string;
  size : Z;
  modifiedTime : string;
  etag : string;
  gzip : option CompressedInfo;
  br : option CompressedInfo
}.

(** [AvailableFiles]: an object used as a dictionary from request path to
    file.  The map holds the object's own properties, the keys the builder
    assigned; what a property access finds besides them is in [PlainObject]
    below. *)
Abbreviation AvailableFiles := (gmap string AvailableFile).

Record StaticServerOptions := mkOptions {
  host : string;
  port : Z;
  index : string;
  fallback : option string;
  maxage : Z;
  verbose : bool
}.

(** ** The path resolver *)

(** [getFileToServe(staticPaths, indexPath, fallbackPath)(req)], on the
    request's [path], with [staticPaths[key]] read as a lookup among the
    object's own properties.  An [AvailableFile] is an object, so [if (file)]
    tests that the key is present; [if (fallbackPath)] is false for a missing
    fallback and for the empty string.  The property accesses of the program
    also find what the object inherits: [PlainObject.getFileToServe] below
    has them, and the two agree whenever no path looked up is the name of an
    inherited property ([getFileToServe_own_properties]). *)
Definition getFileToServe (staticPaths : AvailableFiles) (indexPath : string)
    (fallbackPath : option string) (req_path : string) : option AvailableFile :=
  let reqPath := if String.eqb req_path "/" then "/" +:+ indexPath else req_path in
  match staticPaths !! reqPath with
  | Some file => Some file
  | None =>
    let indexReqPath :=
      if JsString.endsWithSlash reqPath
      then reqPath +:+ indexPath
      else reqPath +:+ "/" +:+ indexPath in
    match staticPaths !! indexReqPath with
    | Some indexFile => Some indexFile
    | None =>
      match fallbackPath with
      | Some fp =>
        if JsString.truthy fp then
          match staticPaths !! fp with
          | Some fallbackFile => Some fallbackFile
          | None => None
          end
        else None
      | None => None
      end
    end
  end.

(** ** Property access on the index object *)

Module PlainObject.

(** The names every object created by [{}] inherits from [Object.prototype]. *)
Definition inheritedKeys : list string :=
  ["constructor"; "__defineGetter__"; "__defineSetter__"; "hasOwnProperty";
   "__lookupGetter__"; "__lookupSetter__"; "isPrototypeOf"; "propertyIsEnumerable";
   "toString"; "valueOf"; "__proto__"; "toLocaleString"].

Definition isInherited (key : string) : bool :=
  existsb (String.eqb key) inheritedKeys.

(** What [staticPaths[key]] evaluates to: the file the builder assigned to
    the key, or else the member of [Object.prototype] of that name (a
    function, or the prototype itself for [__proto__]), which is not a file
    and is truthy; [undefined] for any other key. *)
Inductive Property :=
| Own (file : AvailableFile)
| Inherited (name : string).

Definition get (staticPaths : AvailableFiles) (key : string) : option Property :=
  match staticPaths !! key with
  | Some file => Some (Own file)
  | None => if isInherited key then Some (Inherited key) else None
  end.

(** [getFileToServe(staticPaths, indexPath, fallbackPath)(req)] with the
    property accesses of the program: [staticPaths] is created by [{}] in
    [getStaticPaths], and every value [get] finds is truthy. *)
Definition getFileToServe (staticPaths : AvailableFiles) (indexPath : string)
    (fallbackPath : option string) (req_path : string) : option Property :=
  let reqPath := if String.eqb req_path "/" then "/" +:+ indexPath else req_path in
  match get staticPaths reqPath with
  | Some file => Some file
  | None =>
    let indexReqPath :=
      if JsString.endsWithSlash reqPath
      then reqPath +:+ indexPath
      else reqPath +:+ "/" +:+ indexPath in
    match get staticPaths indexReqPath with
    | Some indexFile => Some indexFile
    | None =>
      match fallbackPath with
      | Some fp =>
        if JsString.truthy fp then
          match get staticPaths fp with
          | Some fallbackFile => Some fallbackFile
          | None => None
          end
        else None
      | None => None
      end
    end
  end.

End PlainObject.

(** ** Requests, header objects and what a handler does to the response *)

(** A header value is [string | number]. *)
Inductive HeaderValue :=
| HStr (s : string)
| HNum (n : Z).

Abbreviation Headers := (gmap string HeaderValue).

(** The part of polka's [Request] the server reads: the decoded path and the
    lower-cased request headers. *)
Record Request := mkRequest {
  req_path : string;
  req_headers : gmap string string
}.

(** What a read stream piped into the response does: it delivers the file and
    ends the response, or it emits ['error'] after some bytes. *)
Inductive StreamResult :=
| StreamFinished (bytes : string)
| StreamFailed (sent : string) (e : string).

(** The calls a handler makes, in order: on the response object
    ([writeHead], the [logInfo] field, a stream piped into it, [end]), on
    [process.stderr], and on the [next] handler; and, last, the exception
    that leaves the handler when one of its calls throws. *)
Inductive Event :=
| EvWriteHead (status : Z) (headers : Headers)
| EvLogInfo (headers : Headers)
| EvPipe (file : string) (outcome : StreamResult)
| EvEnd (data : string)
| EvStderr (text : string)
| EvNext
| EvThrow (code : string).

(** [`${n}`] for an integer number. *)
Definition numberToString (n : Z) : string := pretty n.

(** [getHeaders(file, options)]. *)
Definition getHeaders (file : AvailableFile) (options : StaticServerOptions) : Headers :=
  let headers : Headers :=
    <["cache-control" :=
        HStr ("no-cache, must-revalidate, max-age=" +:+ numberToString (maxage options))]>
      (<["etag" := HStr (etag file)]>
        (<["last-modified" := HStr (modifiedTime file)]> ∅)) in
  match contentType file with
  | Some ct =>
    if JsString.truthy ct then <["content-type" := HStr ct]> headers else headers
  | None => headers
  end.

(** [sendNotModified(headers, res)]. *)
Definition sendNotModified (headers : Headers) : list Event :=
  [EvWriteHead 304 headers; EvLogInfo headers; EvEnd ""].

(** [fse.createReadStream(p).on('error', reject).pipe(res).on('finish',
    resolve)]: the events, and the error the promise is rejected with. *)
Definition pipeFile (readStream : string -> StreamResult) (p : string)
    : list Event * option string :=
  match readStream p with
  | StreamFinished bytes => ([EvPipe p (StreamFinished bytes)], None)
  | StreamFailed sent e => ([EvPipe p (StreamFailed sent e)], Some e)
  end.

(** The block that ends each branch of [sendFile]: [res.writeHead(200,
    headers)], [res.logInfo = headers], then the file piped into [res]. *)
Definition writeHeadAndPipe (readStream : string -> StreamResult)
    (headers : Headers) (p : string) : list Event * option string :=
  let '(piped, rejected) := pipeFile readStream p in
  (EvWriteHead 200 headers :: EvLogInfo headers :: piped, rejected).

(** [sendFile(file, headers, req, res)]: the events on the response, and the
    rejection of the returned promise if the stream fails.  [early] is the
    branch that returns inside [if (acceptEncoding)], if one does. *)
Definition sendFile (readStream : string -> StreamResult) (file : AvailableFile)
    (headers : Headers) (req : Request) : list Event * option string :=
  let acceptEncoding := req_headers req !! "accept-encoding" in
  let early :=
    match acceptEncoding with
    | Some ae =>
      if JsString.truthy ae then
        match JsString.includes ae "br", br file with
        | true, Some brotli =>
          let headers := <["content-encoding" := HStr "br"]> headers in
          let headers := <["content-length" := HNum (ci_size brotli)]> headers in
          Some (writeHeadAndPipe readStream headers (ci_path brotli))
        | _, _ =>
          match JsString.includes ae "gzip", gzip file with
          | true, Some gz =>
            let headers := <["content-encoding" := HStr "gzip"]> headers in
            let headers := <["content-length" := HNum (ci_size gz)]> headers in
            Some (writeHeadAndPipe readStream headers (ci_path gz))
          | _, _ => None
          end
        end
      else None
    | None => None
    end in
  match early with
  | Some sent => sent
  | None =>
    let headers := <["content-length" := HNum (size file)]> headers in
    writeHeadAndPipe readStream headers (path file)
  end.

(** [requestEtag === file.etag], for a header that may be absent. *)
Definition etagMatches (requestEtag : option string) (file : AvailableFile) : bool :=
  match requestEtag with
  | Some e => String.eqb e (etag file)
  | None => false
  end.

(** The middleware [serve] that [staticServe] returns, over the index built
    at start-up, for the requests whose file is found among the own
    properties of the index or not at all.  [next] tells whether polka
    passed a next handler.  In the [catch] block the head of the 200 is
    written already, so [res.writeHead(500)] throws
    [ERR_HTTP_HEADERS_SENT]: no second head is written, [res.end()] is not
    reached, and the promise of [serve] is rejected. *)
Definition serve (staticPaths : AvailableFiles) (options : StaticServerOptions)
    (readStream : string -> StreamResult) (req : Request) (next : bool)
    : list Event :=
  let getFile := getFileToServe staticPaths (index options) (fallback options) in
  match getFile (req_path req) with
  | Some file =>
    let headers := getHeaders file options in
    let requestEtag := req_headers req !! "if-none-match" in
    if etagMatches requestEtag file then sendNotModified headers
    else
      match sendFile readStream file headers req with
      | (events, None) => events
      | (events, Some e) =>
        events ++ [EvStderr (e +:+ String "010"%char EmptyString);
                   EvThrow "ERR_HTTP_HEADERS_SENT"]
      end
  | None =>
    if next then [EvNext]
    else [EvWriteHead 404 ∅; EvEnd "Not Found"]
  end.

(** ** The file system and the libraries the index builder calls *)

(** The part of [fse.Stats] the builder reads: [size], [mtime.getTime()] in
    epoch milliseconds, and [isDirectory()]. *)
Record Stats := mkStats {
  st_size : Z;
  st_mtime : Z;
  st_isDirectory : bool
}.

(** The error an [async] function of the builder is rejected with. *)
Inductive BuildError :=
| ReaddirFailed (dir : string)
| StatFailed (p : string).

(** A file system as the builder sees it: [fse.readdir] and [fse.stat]
    reject ([None]) or give a value, [fse.access] succeeds or not, for each
    path.  The calls of the walk are in flight together, and the event loop
    completes them in an order of its own: [fs_settled e] is the place in
    that order of the call that is rejected with [e] (of the first one, when
    several calls are). *)
Record FileSystem := mkFileSystem {
  fs_readdir : string -> option (list string);
  fs_stat : string -> option Stats;
  fs_access : string -> bool;
  fs_settled : BuildError -> nat
}.

(** The result of awaiting a promise of the builder.  The walk recurses into
    every directory it meets; [OutOfFuel] is the model running out of the
    nesting depth it was given. *)
Inductive Async (A : Type) :=
| Fulfilled (a : A)
| Rejected (e : BuildError)
| OutOfFuel.
Arguments Fulfilled {A} a.
Arguments Rejected {A} e.
Arguments OutOfFuel {A}.

(** [await]: a rejection propagates. *)
#[global] Instance Async_bind : MBind Async := fun A B k p =>
  match p with
  | Fulfilled a => k a
  | Rejected e => Rejected e
  | OutOfFuel => OutOfFuel
  end.

(** How a promise settles, whatever value it is fulfilled with. *)
Definition settlement {A : Type} (p : Async A) : Async unit :=
  match p with
  | Fulfilled _ => Fulfilled ()
  | Rejected e => Rejected e
  | OutOfFuel => OutOfFuel
  end.

(** Of two rejections, the one that settles first. *)
Definition firstSettled (settled : BuildError -> nat) (e e' : BuildError) : BuildError :=
  if (settled e' <? settled e)%nat then e' else e.

(** The callbacks of [dirPaths.map(async ...)] joined by [Promise.all].
    Every callback is started, whatever becomes of the others: none waits
    for another, and a rejection stops none.  [Promise.all] is fulfilled
    when all of them are, and is rejected with the rejection that settles
    first, in the order [settled] of the event loop.  The callbacks only add
    keys to the shared accumulator and never read it, so a fulfilled result
    is the same for every interleaving: the accumulator is passed from one
    fulfilled callback to the next in the list.  A callback the model has no
    fuel for leaves the result undecided. *)
Fixpoint forEachAsync {A S : Type} (settled : BuildError -> nat)
    (f : S -> A -> Async S) (acc : S) (l : list A) : Async S :=
  match l with
  | [] => Fulfilled acc
  | x :: rest =>
    match f acc x with
    | Fulfilled acc' => forEachAsync settled f acc' rest
    | Rejected e =>
      match forEachAsync settled f acc rest with
      | Fulfilled _ => Rejected e
      | Rejected e' => Rejected (firstSettled settled e e')
      | OutOfFuel => OutOfFuel
      end
    | OutOfFuel => OutOfFuel
    end
  end.

Module NodePath.

(** [path.join(dir, name)] on POSIX, for a directory [dir] as
    [path.resolve] gives it (normalised: [/], or no trailing slash) and an
    entry [name] of [readdir] (a single name): one [/] between the two. *)
Definition join (dir name : string) : string :=
  if JsString.endsWithSlash dir then dir +:+ name else dir +:+ "/" +:+ name.

Definition isSlash (c : ascii) : bool := Ascii.eqb c "/"%char.
Definition isDot (c : ascii) : bool := Ascii.eqb c "."%char.

Fixpoint hasSlash (s : string) : bool :=
  match s with
  | EmptyString => false
  | String c rest => isSlash c || hasSlash rest
  end.

(** The last portion of a path: what follows its last [/]. *)
Fixpoint lastPortion (s : string) : string :=
  match s with
  | EmptyString => EmptyString
  | String c rest =>
    if hasSlash rest then lastPortion rest
    else if isSlash c then rest else String c rest
  end.

(** The position of the last [.] of a name. *)
Fixpoint lastDot (s : string) : option nat :=
  match s with
  | EmptyString => None
  | String c rest =>
    match lastDot rest with
    | Some i => Some (S i)
    | None => if isDot c then Some O else None
    end
  end.

(** [path.extname(p)] on POSIX, for a path that does not end in [/]: from
    the last [.] of the last portion to its end; empty when there is no
    [.], when the only [.] is the first character of the portion (a dot
    file such as [.gz]) and for the portion [..]. *)
Definition extname (p : string) : string :=
  let base := lastPortion p in
  match lastDot base with
  | None => ""
  | Some O => ""
  | Some i => if String.eqb base ".." then "" else JsString.substr base i
  end.

End NodePath.

(** [n.toString(16)] for a non-negative integer: lower-case hexadecimal
    digits, no leading zero. *)
Definition hexDigit (d : Z) : ascii :=
  match d with
  | 0 => "0" | 1 => "1" | 2 => "2" | 3 => "3" | 4 => "4" | 5 => "5" | 6 => "6"
  | 7 => "7" | 8 => "8" | 9 => "9" | 10 => "a" | 11 => "b" | 12 => "c"
  | 13 => "d" | 14 => "e" | _ => "f"
  end%char.

Fixpoint hexDigits (fuel : nat) (n : Z) (acc : string) : string :=
  let acc' := String (hexDigit (n mod 16)) acc in
  match fuel with
  | O => acc'
  | S fuel' => if n / 16 =? 0 then acc' else hexDigits fuel' (n / 16) acc'
  end.

Definition toString16 (n : Z) : string :=
  hexDigits (Z.to_nat (Z.log2 n)) n "".

Section IndexBuilder.

(** [mime.getType]: the content type of a path by its extension, or
    [null]. *)
Variable mime_getType : string -> option string.

(** [xxhash.h32(data, seed)]: the 32-bit hash, as a number. *)
Variable xxhash_h32 : string -> Z -> Z.

(** [new Date(ms).toUTCString()]: the HTTP date of an epoch time. *)
Variable toUTCString : Z -> string.

(** [path.resolve(dir)]: the absolute, normalised path of [dir]. *)
Variable path_resolve : string -> string.

Variable fs : FileSystem.

Definition readdir (dir : string) : Async (list string) :=
  match fs_readdir fs dir with
  | Some names => Fulfilled names
  | None => Rejected (ReaddirFailed dir)
  end.

Definition stat (p : string) : Async Stats :=
  match fs_stat fs p with
  | Some stats => Fulfilled stats
  | None => Rejected (StatFailed p)
  end.

(** [fileExists(path)]: [fse.access] in a [try]; never rejects. *)
Definition fileExists (p : string) : bool := fs_access fs p.

(** The [etag] field of [getFilePathInfo]. *)
Definition etagOf (filePath : string) (fileSize mtime : Z) : string :=
  toString16
    (xxhash_h32
       (filePath +:+ "-" +:+ numberToString fileSize +:+ "-" +:+ numberToString mtime)
       0xabcd).

(** [getFilePathInfo(filePath, stats)]. *)
Definition getFilePathInfo (filePath : string) (stats : Stats) : Async AvailableFile :=
  let contentType := mime_getType filePath in
  let gzipPath := filePath +:+ ".gz" in
  let brotliPath := filePath +:+ ".br" in
  let hasGzip := fileExists gzipPath in
  let hasBrotli := fileExists brotliPath in
  gzip ← (if hasGzip
          then s ← stat gzipPath; Fulfilled (Some (mkCompressedInfo gzipPath (st_size s)))
          else Fulfilled None);
  br ← (if hasBrotli
        then s ← stat brotliPath; Fulfilled (Some (mkCompressedInfo brotliPath (st_size s)))
        else Fulfilled None);
  Fulfilled {|
    path := filePath;
    contentType := contentType;
    size := st_size stats;
    modifiedTime := toUTCString (st_mtime stats);
    etag := etagOf filePath (st_size stats) (st_mtime stats);
    gzip := gzip;
    br := br
  |}.

(** [['.br', '.gz'].includes(path.extname(absPath))]. *)
Definition isCompressedFile (absPath : string) : bool :=
  existsb (String.eqb (NodePath.extname absPath)) [".br"; ".gz"].

(** [fillStaticPaths(acc, dir, baseDir)]: the accumulator is passed through
    and returned.  [fuel] bounds the nesting depth of directories. *)
Fixpoint fillStaticPaths (fuel : nat) (acc : AvailableFiles) (dir baseDir : string)
    : Async AvailableFiles :=
  match fuel with
  | O => OutOfFuel
  | S fuel' =>
    dirPaths ← readdir dir;
    forEachAsync (fs_settled fs)
      (fun acc dirPath =>
         let absPath := NodePath.join dir dirPath in
         stats ← stat absPath;
         if st_isDirectory stats then fillStaticPaths fuel' acc absPath baseDir
         else
           if negb (isCompressedFile absPath) then
             let url := JsString.substr absPath (String.length baseDir) in
             filePathInfo ← getFilePathInfo absPath stats;
             Fulfilled (<[url := filePathInfo]> acc)
           else Fulfilled acc)
      acc dirPaths
  end.

(** The callback of [dirPaths.map] in [fillStaticPaths], on its own, with
    [fuel] left for the directories below. *)
Definition visitEntry (fuel : nat) (dir baseDir : string) (acc : AvailableFiles)
    (dirPath : string) : Async AvailableFiles :=
  let absPath := NodePath.join dir dirPath in
  stats ← stat absPath;
  if st_isDirectory stats then fillStaticPaths fuel acc absPath baseDir
  else
    if negb (isCompressedFile absPath) then
      let url := JsString.substr absPath (String.length baseDir) in
      filePathInfo ← getFilePathInfo absPath stats;
      Fulfilled (<[url := filePathInfo]> acc)
    else Fulfilled acc.

(** [getStaticPaths(dir)]. *)
Definition getStaticPaths (fuel : nat) (dir : string) : Async AvailableFiles :=
  let staticPaths : AvailableFiles := ∅ in
  fillStaticPaths fuel staticPaths dir dir.

(** [staticServe(dir, options)]: the middleware, once the index is built. *)
Definition staticServe (fuel : nat) (dir : string) (options : StaticServerOptions)
    : Async ((string -> StreamResult) -> Request -> bool -> list Event) :=
  let staticDir := path_resolve dir in
  staticPaths ← getStaticPaths fuel staticDir;
  Fulfilled (serve staticPaths options).

(** *** What the walk visits *)

(** The directories [fillStaticPaths] is called on when the walk starts on
    [root], each with its nesting depth: [root] itself, and every entry of
    a visited directory that [stat] reports as a directory. *)
Inductive Walked (root : string) : nat → string → Prop :=
| walked_root : Walked root 0%nat root
| walked_sub depth dir names name stats :
    Walked root depth dir →
    fs_readdir fs dir = Some names → name ∈ names →
    fs_stat fs (NodePath.join dir name) = Some stats →
    st_isDirectory stats = true →
    Walked root (S depth) (NodePath.join dir name).

(** The assignment [acc[url] = filePathInfo] of the walk: an entry of a
    visited directory that is not a directory and not a compressed file. *)
Inductive Indexed (root baseDir url : string) (file : AvailableFile) : Prop :=
| indexed depth dir names name stats :
    Walked root depth dir →
    fs_readdir fs dir = Some names → name ∈ names →
    fs_stat fs (NodePath.join dir name) = Some stats →
    st_isDirectory stats = false →
    isCompressedFile (NodePath.join dir name) = false →
    getFilePathInfo (NodePath.join dir name) stats = Fulfilled file →
    url = JsString.substr (NodePath.join dir name) (String.length baseDir) →
    Indexed root baseDir url file.

(** A [readdir] or [stat] of the walk that fails: [readdir] of a visited
    directory, [stat] of one of its entries, or [stat] of the compressed
    sibling of an indexed file that [fileExists] found. *)
Inductive Fails (root : string) : BuildError → Prop :=
| fails_readdir depth dir :
    Walked root depth dir → fs_readdir fs dir = None →
    Fails root (ReaddirFailed dir)
| fails_stat depth dir names name :
    Walked root depth dir →
    fs_readdir fs dir = Some names → name ∈ names →
    fs_stat fs (NodePath.join dir name) = None →
    Fails root (StatFailed (NodePath.join dir name))
| fails_sibling depth dir names name stats ext :
    Walked root depth dir →
    fs_readdir fs dir = Some names → name ∈ names →
    fs_stat fs (NodePath.join dir name) = Some stats →
    st_isDirectory stats = false →
    isCompressedFile (NodePath.join dir name) = false →
    ext ∈ [".gz"; ".br"] →
    fs_access fs (NodePath.join dir name +:+ ext) = true →
    fs_stat fs (NodePath.join dir name +:+ ext) = None →
    Fails root (StatFailed (NodePath.join dir name +:+ ext)).

(** A call that [fillStaticPaths], called on [dir], makes and that fails:
    [readdir] of [dir], [stat] of an entry, and, for an entry that is
    indexed, [stat] of the gzip sibling that [fileExists] found, or of the
    brotli sibling when [getFilePathInfo] gets that far. *)
Inductive FailsIn (dir : string) : BuildError → Prop :=
| failsIn_readdir :
    fs_readdir fs dir = None →
    FailsIn dir (ReaddirFailed dir)
| failsIn_stat names name :
    fs_readdir fs dir = Some names → name ∈ names →
    fs_stat fs (NodePath.join dir name) = None →
    FailsIn dir (StatFailed (NodePath.join dir name))
| failsIn_gzip names name stats :
    fs_readdir fs dir = Some names → name ∈ names →
    fs_stat fs (NodePath.join dir name) = Some stats →
    st_isDirectory stats = false →
    isCompressedFile (NodePath.join dir name) = false →
    fs_access fs (NodePath.join dir name +:+ ".gz") = true →
    fs_stat fs (NodePath.join dir name +:+ ".gz") = None →
    FailsIn dir (StatFailed (NodePath.join dir name +:+ ".gz"))
| failsIn_brotli names name stats :
    fs_readdir fs dir = Some names → name ∈ names →
    fs_stat fs (NodePath.join dir name) = Some stats →
    st_isDirectory stats = false →
    isCompressedFile (NodePath.join dir name) = false →
    ¬ (fs_access fs (NodePath.join dir name +:+ ".gz") = true ∧
       fs_stat fs (NodePath.join dir name +:+ ".gz") = None) →
    fs_access fs (NodePath.join dir name +:+ ".br") = true →
    fs_stat fs (NodePath.join dir name +:+ ".br") = None →
    FailsIn dir (StatFailed (NodePath.join dir name +:+ ".br")).

(** The errors the walk from [root] encounters: the failing calls made for
    the directories it visits.  No call is cancelled when another fails, so
    each of them is made and fails, in every order of completion. *)
Definition Encountered (root : string) (e : BuildError) : Prop :=
  ∃ depth dir, Walked root depth dir ∧ FailsIn dir e.

(** Directories nest less than [n] deep under [root]. *)
Definition DepthBounded (root : string) (n : nat) : Prop :=
  ∀ depth dir, Walked root depth dir → (depth < n)%nat.

End IndexBuilder.

(** ** The words of the design, as definitions to compare the code with *)

(** [t] occurs in [s] as a substring. *)
Definition Contains (s t : string) : Prop := ∃ a b, s = a +:+ t +:+ b.

Module ResolverSpec.

(** A path without its trailing [/], if it has one. *)
Fixpoint dropTrailingSlash (s : string) : string :=
  match s with
  | EmptyString => EmptyString
  | String c EmptyString => if Ascii.eqb c "/"%char then EmptyString else s
  | String c rest => String c (dropTrailingSlash rest)
  end.

(** Steps 1 and 2: [/] stands for [/]+indexFileName, any other path for
    itself. *)
Definition requested (requestPath indexFileName : string) : string :=
  if decide (requestPath = "/") then "/" +:+ indexFileName else requestPath.

(** Step 3: the path as a directory, [/]+indexFileName appended with a
    single slash. *)
Definition asDirectory (p indexFileName : string) : string :=
  dropTrailingSlash p +:+ "/" +:+ indexFileName.

(** Step 4: the fallback, when one is configured. *)
Definition configured (fallbackPath : option string) : list string :=
  match fallbackPath with
  | Some fp => if decide (fp = "") then [] else [fp]
  | None => []
  end.

(** The paths looked up, in order. *)
Definition chain (requestPath indexFileName : string) (fallbackPath : option string)
    : list string :=
  let p := requested requestPath indexFileName in
  [p; asDirectory p indexFileName] ++ configured fallbackPath.

(** First hit wins; step 5: no match. *)
Fixpoint firstHit (index : AvailableFiles) (paths : list string) : option AvailableFile :=
  match paths with
  | [] => None
  | p :: rest =>
    match index !! p with
    | Some entry => Some entry
    | None => firstHit index rest
    end
  end.

Definition resolve (requestPath : string) (index : AvailableFiles)
    (indexFileName : string) (fallbackPath : option string) : option AvailableFile :=
  firstHit index (chain requestPath indexFileName fallbackPath).

End ResolverSpec.

(** What the negotiator chooses: a file, its size and an encoding label. *)
Record Variant := mkVariant {
  variantPath : string;
  variantSize : Z;
  encodingLabel : option string
}.

Module NegotiatorSpec.

(** The Accept-Encoding value contains the token. *)
Definition offers (header : option string) (token : string) : Prop :=
  ∃ value, header = Some value ∧ Contains value token.

Definition brotliVariant (c : CompressedInfo) : Variant :=
  mkVariant (ci_path c) (ci_size c) (Some "br").
Definition gzipVariant (c : CompressedInfo) : Variant :=
  mkVariant (ci_path c) (ci_size c) (Some "gzip").
Definition identityVariant (entry : AvailableFile) : Variant :=
  mkVariant (path entry) (size entry) None.

(** The decision order of the negotiator. *)
Inductive negotiate (entry : AvailableFile) (header : option string) : Variant → Prop :=
| choose_brotli b :
    offers header "br" → br entry = Some b →
    negotiate entry header (brotliVariant b)
| choose_gzip g :
    ¬ (offers header "br" ∧ is_Some (br entry)) →
    offers header "gzip" → gzip entry = Some g →
    negotiate entry header (gzipVariant g)
| choose_identity :
    ¬ (offers header "br" ∧ is_Some (br entry)) →
    ¬ (offers header "gzip" ∧ is_Some (gzip entry)) →
    negotiate entry header (identityVariant entry).

End NegotiatorSpec.

(** The headers of a streamed response: the validator's set, the length of
    the variant, and its encoding label if it has one. *)
Definition streamedHeaders (headers : Headers) (v : Variant) : Headers :=
  <["content-length" := HNum (variantSize v)]>
    (match encodingLabel v with
     | Some label => <["content-encoding" := HStr label]> headers
     | None => headers
     end).

(** A response is well ordered when a status 200 head is written before any
    file is piped into it. *)
Definition headBeforeBody (events : list Event) : Prop :=
  ∀ i p r, events !! i = Some (EvPipe p r) →
    ∃ j h, (j < i)%nat ∧ events !! j = Some (EvWriteHead 200 h).


(** What [serve] does when it streams variant [v] under the validator's
    headers: head, log record, stream, and, if the stream fails, the error
    on the operator's channel and the response given up (no second head, no
    [end]: the handler throws). *)
Definition streamingResponse (readStream : string → StreamResult) (headers : Headers)
    (v : Variant) : list Event :=
  let h := streamedHeaders headers v in
  EvWriteHead 200 h :: EvLogInfo h :: EvPipe (variantPath v) (readStream (variantPath v)) ::
  match readStream (variantPath v) with
  | StreamFinished _ => []
  | StreamFailed _ e =>
    [EvStderr (e +:+ String "010"%char EmptyString); EvThrow "ERR_HTTP_HEADERS_SENT"]
  end.

Definition validatorKeys : list string :=
  ["last-modified"; "etag"; "cache-control"; "content-type"].

(** ** The request logger's reading of the response *)

Module RequestLogger.

(** The [logInfo] field of the response once the handler has made its calls:
    the object last assigned to it, if any. *)
Definition logInfoAfter (events : list Event) : option Headers :=
  foldl (λ logInfo e, match e with EvLogInfo h => Some h | _ => logInfo end) None events.

(** [hasLogInfo(value)]: [!!value.logInfo]. *)
Definition hasLogInfo (logInfo : option Headers) : bool :=
  match logInfo with
  | Some _ => true
  | None => false
  end.

(** [res.logInfo[key]], [undefined] without the field or the key. *)
Definition logInfoField (logInfo : option Headers) (key : string) : option HeaderValue :=
  match logInfo with
  | Some info => info !! key
  | None => None
  end.

(** [getContentLength(res)]. *)
Definition getContentLength (logInfo : option Headers) : HeaderValue :=
  match hasLogInfo logInfo, logInfoField logInfo "content-length" with
  | true, Some length => length
  | _, _ => HNum 0
  end.

(** [getEncoding(res)]. *)
Definition getEncoding (logInfo : option Headers) : HeaderValue :=
  match hasLogInfo logInfo, logInfoField logInfo "content-encoding" with
  | true, Some encoding => encoding
  | _, _ => HStr "no encoding"
  end.

End RequestLogger.

(** ** The compression tool *)

Module Compressor.

(** The tool's [CompressibleFile] and [CompressedFile]. *)
Record CompressibleFile := mkCompressibleFile {
  absolutePath : string;
  relativePath : string;
  fileSize : Z
}.

Record CompressedFile := mkCompressedFile {
  compressedRelativePath : string;
  originalSize : Z;
  gzipSize : Z;
  brotliSize : Z
}.

(** [buffer.byteLength]. *)
Definition byteLength (buffer : string) : Z := Z.of_nat (String.length buffer).

(** [compressFile(fileInfo)]: the calls of [fse.writeFile] it makes, with
    path and content, and its result, or nothing when the promise is
    rejected.  [readFile], the two compressors and [writeFile] succeed or
    not; both writes are started before either is awaited. *)
Definition compressFile (readFile : string → option string)
    (brotliCompress gzipCompress : string → option string)
    (writeFile : string → string → bool) (fileInfo : CompressibleFile)
    : list (string * string) * option CompressedFile :=
  match readFile (absolutePath fileInfo) with
  | None => ([], None)
  | Some file =>
    match brotliCompress file with
    | None => ([], None)
    | Some brotli =>
      match gzipCompress file with
      | None => ([], None)
      | Some gzip =>
        let brotliPath := absolutePath fileInfo +:+ ".br" in
        let gzipPath := absolutePath fileInfo +:+ ".gz" in
        let written := [(brotliPath, brotli); (gzipPath, gzip)] in
        if writeFile brotliPath brotli && writeFile gzipPath gzip
        then (written,
              Some {| compressedRelativePath := relativePath fileInfo;
                      originalSize := fileSize fileInfo;
                      gzipSize := byteLength gzip;
                      brotliSize := byteLength brotli |})
        else (written, None)
      end
    end
  end.

End Compressor.

(** The keys of an index as the design describes them: a leading [/], and
    never [.gz] or [.br] at the end. *)
Definition KeysAsDescribed (index : AvailableFiles) : Prop :=
  ∀ k, is_Some (index !! k) →
       JsString.startsWith "/" k = true ∧
       JsString.endsWith k ".gz" = false ∧
       JsString.endsWith k ".br" = false.

(** ** A sample site *)

Module Sample.

(** Stand-ins for the three libraries, for the examples. *)
Definition mime (p : string) : option string :=
  if JsString.endsWith p ".html" then Some "text/html"
  else if JsString.endsWith p ".js" then Some "application/javascript"
  else None.

Definition hash (data : string) (seed : Z) : Z :=
  (Z.of_nat (String.length data) * 2654435761 + seed) mod 2 ^ 32.

Definition date (ms : Z) : string := "ms " +:+ numberToString ms.

(** A file system from its directory listings and the [stat] of its paths;
    [access] succeeds on the paths that have one. *)
Definition fileSystem (dirs : gmap string (list string)) (stats : gmap string Stats)
    : FileSystem :=
  {| fs_readdir p := dirs !! p;
     fs_stat p := stats !! p;
     fs_access p := bool_decide (is_Some (stats !! p));
     fs_settled e := 0%nat |}.

(** [/srv]: a page with both compressed siblings, a script, a directory. *)
Definition site : FileSystem :=
  fileSystem
    (list_to_map
       [("/srv", ["index.html"; "index.html.br"; "index.html.gz"; "app.js"; "assets"]);
        ("/srv/assets", ["logo.png"])])
    (list_to_map
       [("/srv/index.html", mkStats 1000 1700000000000 false);
        ("/srv/index.html.br", mkStats 300 1700000000001 false);
        ("/srv/index.html.gz", mkStats 400 1700000000002 false);
        ("/srv/app.js", mkStats 5000 1700000000003 false);
        ("/srv/assets", mkStats 4096 1700000000004 true);
        ("/srv/assets/logo.png", mkStats 2048 1700000000005 false)]).

(** The same page in another tree: no brotli sibling, another gzip sibling
    and no other file. *)
Definition mirror : FileSystem :=
  fileSystem
    (list_to_map [("/srv", ["index.html"; "index.html.gz"])])
    (list_to_map
       [("/srv/index.html", mkStats 1000 1700000000000 false);
        ("/srv/index.html.gz", mkStats 420 1700000009999 false)]).

(** [/srv] with two entries whose [stat] fails; the [stat] of [private],
    listed last, is the first of the two to complete. *)
Definition broken : FileSystem :=
  {| fs_readdir p := ({[ "/srv" := ["cache"; "index.html"; "private"] ]} : gmap _ _) !! p;
     fs_stat p := ({[ "/srv/index.html" := mkStats 1000 1700000000000 false ]} : gmap _ _) !! p;
     fs_access p := String.eqb p "/srv/index.html";
     fs_settled e :=
       match e with
       | StatFailed p => if String.eqb p "/srv/private" then 1%nat else 2%nat
       | ReaddirFailed _ => 3%nat
       end |}.

(** [/srv] with a dot file named [.gz]. *)
Definition dotFiles : FileSystem :=
  fileSystem
    {[ "/srv" := [".gz"] ]}
    {[ "/srv/.gz" := mkStats 12 1700000000000 false ]}.

(** The entry of the page, and an index that holds it. *)
Definition home : AvailableFile :=
  {| path := "/srv/index.html";
     contentType := Some "text/html";
     size := 1000;
     modifiedTime := "ms 1700000000000";
     etag := "35ed54f";
     gzip := Some (mkCompressedInfo "/srv/index.html.gz" 400);
     br := Some (mkCompressedInfo "/srv/index.html.br" 300) |}.

Definition pages : AvailableFiles := {[ "/index.html" := home ]}.

Definition options : StaticServerOptions :=
  mkOptions "localhost" 3000 "index.html" None 1209600 false.

Definition readStream (p : string) : StreamResult := StreamFinished ("bytes of " +:+ p).


(** A first visit, a revalidation, and a request for a missing page. *)
Definition firstVisit : Request :=
  mkRequest "/" {[ "accept-encoding" := "gzip, deflate, br" ]}.

Definition revalidation : Request :=
  mkRequest "/"
    (<["if-none-match" := "35ed54f"]> {[ "accept-encoding" := "gzip, deflate, br" ]}).

Definition missing : Request := mkRequest "/nowhere" ∅.

(** The other entries of [site], the index built from it, and the entry and
    index of [mirror]. *)
Definition script : AvailableFile :=
  {| path := "/srv/app.js";
     contentType := Some "application/javascript";
     size := 5000;
     modifiedTime := "ms 1700000000003";
     etag := "8a80ee8b";
     gzip := None;
     br := None |}.

Definition logo : AvailableFile :=
  {| path := "/srv/assets/logo.png";
     contentType := None;
     size := 2048;
     modifiedTime := "ms 1700000000005";
     etag := "1a7435c4";
     gzip := None;
     br := None |}.

Definition siteIndex : AvailableFiles :=
  <["/assets/logo.png" := logo]> (<["/app.js" := script]> {[ "/index.html" := home ]}).

Definition mirrorHome : AvailableFile :=
  {| path := "/srv/index.html";
     contentType := Some "text/html";
     size := 1000;
     modifiedTime := "ms 1700000000000";
     etag := "35ed54f";
     gzip := Some (mkCompressedInfo "/srv/index.html.gz" 420);
     br := None |}.

Definition mirrorIndex : AvailableFiles := {[ "/index.html" := mirrorHome ]}.

(** The dot file of [dotFiles], as the builder records it. *)
Definition dotGz : AvailableFile :=
  {| path := "/srv/.gz";
     contentType := None;
     size := 12;
     modifiedTime := "ms 1700000000000";
     etag := "736b8e16";
     gzip := None;
     br := None |}.

(** The file system root as the directory served, with one page in it. *)
Definition rootTree : FileSystem :=
  fileSystem
    {[ "/" := ["index.html"] ]}
    {[ "/index.html" := mkStats 1000 1700000000000 false ]}.

Definition rootPage : AvailableFile :=
  {| path := "/index.html";
     contentType := Some "text/html";
     size := 1000;
     modifiedTime := "ms 1700000000000";
     etag := "8a80ee8b";
     gzip := None;
     br := None |}.

(** Options with a fallback page, an index with a directory page, a request
    for the script, and the compression tool run on the page. *)
Definition spaOptions : StaticServerOptions :=
  mkOptions "localhost" 3000 "index.html" (Some "/index.html") 1209600 false.

Definition docs : AvailableFiles := {[ "/docs/index.html" := home ]}.

Definition scriptRequest : Request := mkRequest "/app.js" ∅.

Definition pageSource : Compressor.CompressibleFile :=
  Compressor.mkCompressibleFile "/srv/index.html" "index.html" 1000.

Definition readFile (p : string) : option string := Some ("content of " +:+ p).
Definition brotliCompress (content : string) : option string := Some "brotli".
Definition gzipCompress (content : string) : option string := Some "gzipped".
Definition writeFile (p content : string) : bool := true.

Definition compressed : FileSystem :=
  fileSystem
    {[ "/srv" := ["index.html"; "index.html.br"; "index.html.gz"] ]}
    (list_to_map
       [("/srv/index.html", mkStats 1000 1700000000000 false);
        ("/srv/index.html.br", mkStats 6 1700000000010 false);
        ("/srv/index.html.gz", mkStats 7 1700000000011 false)]).

End Sample.

(** ** Strings *)

(** Case analysis on a membership [ext ∈ [".gz"; ".br"]]. *)
Ltac either_extension H :=
  set_unfold in H; destruct H as [-> | [-> | []]].

Lemma append_nil (t : string) : "" +:+ t = t.
Proof. reflexivity. Qed.

Lemma append_cons (c : ascii) (s t : string) : String c s +:+ t = String c (s +:+ t).
Proof. reflexivity. Qed.

Lemma append_empty_r (s : string) : s +:+ "" = s.
Proof. induction s as [|c s IH]; [done | by rewrite append_cons, IH]. Qed.

Lemma append_assoc (a b c : string) : (a +:+ b) +:+ c = a +:+ b +:+ c.
Proof. induction a as [|x a IH]; [done | by rewrite !append_cons, IH]. Qed.

Lemma ascii_eqb_true (a b : ascii) : Ascii.eqb a b = true ↔ a = b.
Proof. apply Ascii.eqb_eq. Qed.

Lemma startsWith_prefix (p s : string) :
  JsString.startsWith p s = true ↔ ∃ r, s = p +:+ r.
Proof.
  revert s. induction p as [|a p IH]; intros s; simpl.
  - split; [eauto | done].
  - destruct s as [|b s].
    + split; [done | intros [r Hr]; discriminate].
    + rewrite andb_true_iff, ascii_eqb_true, IH. split.
      * intros [-> [r ->]]. by exists r.
      * intros [r Hr]. rewrite append_cons in Hr. injection Hr as -> ->. eauto.
Qed.

Lemma startsWith_slash_append (r s : string) :
  JsString.startsWith "/" r = true → JsString.startsWith "/" (r +:+ s) = true.
Proof. destruct r as [|c r]; [done |]. rewrite append_cons. cbn. by destruct r. Qed.

Lemma includes_Contains (s t : string) :
  JsString.includes s t = true ↔ Contains s t.
Proof.
  unfold Contains. induction s as [|c s IH].
  - simpl. rewrite orb_false_r, startsWith_prefix. split.
    + intros [r Hr]. by exists "", r.
    + intros [a [b Hab]]. destruct a; [by exists b | discriminate].
  - cbn [JsString.includes]. rewrite orb_true_iff, IH, startsWith_prefix. split.
    + intros [[r Hr] | [a [b Hab]]].
      * by exists "", r.
      * exists (String c a), b. by rewrite append_cons, Hab.
    + intros [a [b Hab]]. destruct a as [|x a].
      * left. by exists b.
      * right. rewrite append_cons in Hab. injection Hab as _ Hab. eauto.
Qed.

Lemma not_Contains_empty (t : string) : t ≠ "" → ¬ Contains "" t.
Proof.
  intros Ht [a [b Hab]]. destruct a; [|discriminate].
  destruct t; [done | discriminate].
Qed.

Lemma truthy_false (s : string) : JsString.truthy s = false ↔ s = "".
Proof. destruct s; simpl; split; congruence. Qed.

Lemma truthy_true (s : string) : JsString.truthy s = true ↔ s ≠ "".
Proof. destruct s; simpl; split; congruence. Qed.

Lemma dropTrailingSlash_slash (p x : string) :
  JsString.endsWithSlash p = true →
  ResolverSpec.dropTrailingSlash p +:+ "/" +:+ x = p +:+ x.
Proof.
  unfold JsString.endsWithSlash. induction p as [|c p IH]; [done |].
  destruct p as [|d p].
  - simpl. destruct (Ascii.eqb c "/") eqn:E; [|done].
    apply ascii_eqb_true in E as ->. done.
  - intros H.
    change (ResolverSpec.dropTrailingSlash (String c (String d p)))
      with (String c (ResolverSpec.dropTrailingSlash (String d p))).
    rewrite !(append_cons c). f_equal. by apply IH.
Qed.

Lemma dropTrailingSlash_other (p : string) :
  JsString.endsWithSlash p = false → ResolverSpec.dropTrailingSlash p = p.
Proof.
  unfold JsString.endsWithSlash. induction p as [|c p IH]; [done |].
  destruct p as [|d p].
  - simpl. by intros ->.
  - intros H.
    change (ResolverSpec.dropTrailingSlash (String c (String d p)))
      with (String c (ResolverSpec.dropTrailingSlash (String d p))).
    f_equal. by apply IH.
Qed.

(** ** The path resolver follows the resolution order *)

(** Among the own properties of the index, [getFileToServe] returns the
    first hit of the chain of the design ([/] replaced by
    [/]+indexFileName, else the path itself; then the path as a directory
    with a single slash before indexFileName; then the configured fallback)
    and nothing when none hits. *)
Lemma getFileToServe_resolution_chain (index : AvailableFiles)
    (indexFileName : string) (fallbackPath : option string) (requestPath : string) :
  getFileToServe index indexFileName fallbackPath requestPath
  = ResolverSpec.resolve requestPath index indexFileName fallbackPath.
Proof.
  unfold getFileToServe, ResolverSpec.resolve, ResolverSpec.chain, ResolverSpec.requested.
  assert (Hreq : (if String.eqb requestPath "/" then "/" +:+ indexFileName else requestPath)
                 = (if decide (requestPath = "/") then "/" +:+ indexFileName else requestPath)).
  { destruct (String.eqb_spec requestPath "/"), (decide (requestPath = "/")); congruence. }
  rewrite Hreq. clear Hreq.
  set (p := if decide (requestPath = "/") then _ else _).
  cbn [app ResolverSpec.firstHit].
  destruct (index !! p) as [file|] eqn:Hp; [done |].
  assert (Hdir : (if JsString.endsWithSlash p then p +:+ indexFileName
                  else p +:+ "/" +:+ indexFileName)
                 = ResolverSpec.asDirectory p indexFileName).
  { unfold ResolverSpec.asDirectory. destruct (JsString.endsWithSlash p) eqn:E.
    - by rewrite dropTrailingSlash_slash.
    - by rewrite dropTrailingSlash_other. }
  rewrite Hdir. clear Hdir.
  destruct (index !! ResolverSpec.asDirectory p indexFileName) as [file|]; [done |].
  destruct fallbackPath as [fp|]; [|done]. unfold ResolverSpec.configured.
  destruct (decide (fp = "")) as [-> | Hne]; [done |].
  apply truthy_true in Hne. rewrite Hne. cbn [ResolverSpec.firstHit].
  by destruct (index !! fp).
Qed.

(** *** What the index object inherits *)

Lemma isInherited_spec (key : string) :
  PlainObject.isInherited key = true ↔ key ∈ PlainObject.inheritedKeys.
Proof.
  unfold PlainObject.isInherited. rewrite existsb_exists. split.
  - intros (x & Hx & Heq). apply String.eqb_eq in Heq as ->. by apply list_elem_of_In.
  - intros Hin. exists key. split; [by apply list_elem_of_In | apply String.eqb_refl].
Qed.

Lemma isInherited_slash (key : string) :
  JsString.startsWith "/" key = true → PlainObject.isInherited key = false.
Proof. intros H. by apply startsWith_prefix in H as [r ->]. Qed.

Lemma get_slash (staticPaths : AvailableFiles) (key : string) :
  JsString.startsWith "/" key = true →
  PlainObject.get staticPaths key = PlainObject.Own <$> staticPaths !! key.
Proof.
  intros H. unfold PlainObject.get. rewrite (isInherited_slash _ H).
  by destruct (staticPaths !! key).
Qed.

(** The property accesses of the program find own properties only, when the
    request path begins with [/] and the fallback is not an inherited
    name. *)
Lemma getFileToServe_own_properties (staticPaths : AvailableFiles) (indexPath : string)
    (fallbackPath : option string) (req_path : string) :
  JsString.startsWith "/" req_path = true →
  (∀ fp, fallbackPath = Some fp → PlainObject.isInherited fp = false) →
  PlainObject.getFileToServe staticPaths indexPath fallbackPath req_path
  = PlainObject.Own <$> getFileToServe staticPaths indexPath fallbackPath req_path.
Proof.
  intros Hreq Hfb. unfold PlainObject.getFileToServe, getFileToServe.
  set (reqPath := if String.eqb req_path "/" then "/" +:+ indexPath else req_path).
  assert (Hp : JsString.startsWith "/" reqPath = true).
  { unfold reqPath. by destruct (String.eqb req_path "/"). }
  rewrite (get_slash _ _ Hp). destruct (staticPaths !! reqPath) as [file|]; [done |]. cbn.
  rewrite get_slash
    by (destruct (JsString.endsWithSlash reqPath); by apply startsWith_slash_append).
  match goal with |- context [staticPaths !! ?k] => destruct (staticPaths !! k) end; [done |].
  cbn. destruct fallbackPath as [fp|]; [|done].
  destruct (JsString.truthy fp); [|done].
  unfold PlainObject.get. rewrite (Hfb fp eq_refl). by destruct (staticPaths !! fp).
Qed.

(** C1, where the code leaves the chain: with [constructor] configured as
    fallback and an index that has no such key, the access
    [staticPaths[fallbackPath]] finds the function every object inherits
    under that name, and the resolver returns it as the file to serve; the
    chain of the design has no hit for that request and gives no match. *)
Theorem getFileToServe_inherited_fallback :
  PlainObject.getFileToServe Sample.pages "index.html" (Some "constructor") "/nowhere"
  = Some (PlainObject.Inherited "constructor") ∧
  ResolverSpec.resolve "/nowhere" Sample.pages "index.html" (Some "constructor") = None.
Proof. split; reflexivity. Qed.

(** For a request path that begins with [/] and a fallback that is not the
    name of a member of [Object.prototype], the resolver of the program
    returns the first hit of the chain of the design, and nothing when none
    hits. *)
Theorem getFileToServe_chain_of_own_properties (index : AvailableFiles)
    (indexFileName : string) (fallbackPath : option string) (requestPath : string) :
  JsString.startsWith "/" requestPath = true →
  (∀ fp, fallbackPath = Some fp → fp ∉ PlainObject.inheritedKeys) →
  PlainObject.getFileToServe index indexFileName fallbackPath requestPath
  = PlainObject.Own <$> ResolverSpec.resolve requestPath index indexFileName fallbackPath.
Proof.
  intros Hreq Hfb. rewrite getFileToServe_own_properties; [|done |].
  - by rewrite getFileToServe_resolution_chain.
  - intros fp Hfp. specialize (Hfb fp Hfp).
    destruct (PlainObject.isInherited fp) eqn:E; [|done].
    by apply isInherited_spec in E.
Qed.

(** ** The cache validator's headers *)

(** C8: the header set of [getHeaders] always holds last-modified, etag and
    cache-control with the stated values, and holds content-type, with the
    entry's content type as its value, exactly when that type is known. *)
Theorem getHeaders_validator_set (file : AvailableFile) (options : StaticServerOptions) :
  let headers := getHeaders file options in
  headers !! "last-modified" = Some (HStr (modifiedTime file)) ∧
  headers !! "etag" = Some (HStr (etag file)) ∧
  headers !! "cache-control"
    = Some (HStr ("no-cache, must-revalidate, max-age=" +:+ numberToString (maxage options))) ∧
  (∀ v, headers !! "content-type" = Some v
        ↔ ∃ ct, contentType file = Some ct ∧ ct ≠ "" ∧ v = HStr ct).
Proof.
  assert (Hnone : ∀ (h0 : Headers) k, h0 = ∅ → k = "content-type" →
    <["cache-control" :=
        HStr ("no-cache, must-revalidate, max-age=" +:+ numberToString (maxage options))]>
      (<["etag" := HStr (etag file)]> (<["last-modified" := HStr (modifiedTime file)]> h0))
    !! k = None).
  { intros h0 k -> ->. rewrite !lookup_insert_ne by done. apply lookup_empty. }
  unfold getHeaders. split; [|split; [|split]].
  - destruct (contentType file) as [ct|]; [destruct (JsString.truthy ct)|];
      by simplify_map_eq.
  - destruct (contentType file) as [ct|]; [destruct (JsString.truthy ct)|];
      by simplify_map_eq.
  - destruct (contentType file) as [ct|]; [destruct (JsString.truthy ct)|];
      by simplify_map_eq.
  - intros v. destruct (contentType file) as [ct|]; [destruct (JsString.truthy ct) eqn:E|].
    + apply truthy_true in E. rewrite lookup_insert_eq. split.
      * intros [= <-]. eauto.
      * intros (ct' & Heq & _ & ->). congruence.
    + apply truthy_false in E as ->. rewrite Hnone by done. split; [done |].
      intros (ct' & Heq & Hne & _). congruence.
    + rewrite Hnone by done. split; [done |].
      intros (ct' & Heq & _). congruence.
Qed.

(** ** Content negotiation inside [sendFile] *)

Lemma offers_includes (ae token : string) :
  NegotiatorSpec.offers (Some ae) token ↔ JsString.includes ae token = true.
Proof.
  rewrite includes_Contains. unfold NegotiatorSpec.offers. split.
  - by intros (value & [= <-] & H).
  - eauto.
Qed.

Lemma offers_absent (token : string) : ¬ NegotiatorSpec.offers None token.
Proof. by intros (value & [=] & _). Qed.

Lemma offers_empty (token : string) : token ≠ "" → ¬ NegotiatorSpec.offers (Some "") token.
Proof. intros Hne (value & [= <-] & H). by apply not_Contains_empty in H. Qed.

Lemma negotiate_functional (entry : AvailableFile) (header : option string) (v v' : Variant) :
  NegotiatorSpec.negotiate entry header v →
  NegotiatorSpec.negotiate entry header v' → v = v'.
Proof.
  intros H H'. destruct H as [b Ho Hb | g Hnb Ho Hg | Hnb Hng];
    destruct H' as [b' Ho' Hb' | g' Hnb' Ho' Hg' | Hnb' Hng'];
    try congruence.
  - destruct Hnb'. eauto.
  - destruct Hnb'. eauto.
  - destruct Hnb. eauto.
  - destruct Hng'. eauto.
  - destruct Hnb. eauto.
  - destruct Hng. eauto.
Qed.

(** [sendFile] streams the variant the decision order chooses, under the
    headers it was given with that variant's length and label added. *)
Lemma sendFile_negotiated (readStream : string → StreamResult) (file : AvailableFile)
    (headers : Headers) (req : Request) :
  ∃ v, NegotiatorSpec.negotiate file (req_headers req !! "accept-encoding") v ∧
       sendFile readStream file headers req
       = writeHeadAndPipe readStream (streamedHeaders headers v) (variantPath v).
Proof.
  unfold sendFile. destruct (req_headers req !! "accept-encoding") as [ae|].
  - destruct (JsString.truthy ae) eqn:Et.
    + destruct (JsString.includes ae "br") eqn:Eb.
      * destruct (br file) as [b|] eqn:Hb.
        { exists (NegotiatorSpec.brotliVariant b). split; [|done].
          constructor; [by apply offers_includes | done]. }
        destruct (JsString.includes ae "gzip") eqn:Eg.
        -- destruct (gzip file) as [g|] eqn:Hg.
           { exists (NegotiatorSpec.gzipVariant g). split; [|done].
             constructor; [|by apply offers_includes | done].
             intros [_ [? ?]]. congruence. }
           exists (NegotiatorSpec.identityVariant file). split; [|done].
           constructor; intros [_ [? ?]]; congruence.
        -- exists (NegotiatorSpec.identityVariant file). split; [|done].
           constructor.
           ++ intros [_ [? ?]]. congruence.
           ++ intros [Ho _]. apply offers_includes in Ho. congruence.
      * assert (Hnb : ¬ (NegotiatorSpec.offers (Some ae) "br" ∧ is_Some (br file))).
        { intros [Ho _]. apply offers_includes in Ho. congruence. }
        destruct (JsString.includes ae "gzip") eqn:Eg.
        -- destruct (gzip file) as [g|] eqn:Hg.
           { exists (NegotiatorSpec.gzipVariant g). split; [|done].
             constructor; [done | by apply offers_includes | done]. }
           exists (NegotiatorSpec.identityVariant file). split; [|done].
           constructor; [done |]. intros [_ [? ?]]. congruence.
        -- exists (NegotiatorSpec.identityVariant file). split; [|done].
           constructor; [done |].
           intros [Ho _]. apply offers_includes in Ho. congruence.
    + apply truthy_false in Et as ->.
      exists (NegotiatorSpec.identityVariant file). split; [|done].
      constructor; intros [Ho _]; by apply offers_empty in Ho.
  - exists (NegotiatorSpec.identityVariant file). split; [|done].
    constructor; intros [Ho _]; by apply offers_absent in Ho.
Qed.

(** C2: for every entry and Accept-Encoding value, [sendFile] sends the one
    variant the decision order names: brotli exactly when the value contains
    [br] and the entry has a brotli variant, else gzip exactly when it
    contains [gzip] and the entry has a gzip variant, else the original file
    with no encoding label; containment of the substring is the only test.
    What [sendFile] does is the head of a 200 with the length, and the
    label if there is one, of that variant added to the headers it was
    given, the same headers as log record, and the file of that variant
    piped into the response; its promise is rejected exactly when that
    stream fails. *)
Theorem sendFile_negotiation (readStream : string → StreamResult) (file : AvailableFile)
    (headers : Headers) (req : Request) :
  ∃ v, NegotiatorSpec.negotiate file (req_headers req !! "accept-encoding") v ∧
       (∀ v', NegotiatorSpec.negotiate file (req_headers req !! "accept-encoding") v' → v' = v) ∧
       ∃ h,
         h = <["content-length" := HNum (variantSize v)]>
               (match encodingLabel v with
                | Some label => <["content-encoding" := HStr label]> headers
                | None => headers
                end) ∧
         sendFile readStream file headers req
         = ([EvWriteHead 200 h; EvLogInfo h;
             EvPipe (variantPath v) (readStream (variantPath v))],
            match readStream (variantPath v) with
            | StreamFinished _ => None
            | StreamFailed _ e => Some e
            end).
Proof.
  destruct (sendFile_negotiated readStream file headers req) as (v & Hv & Hsend).
  exists v. split; [done |]. split.
  { intros v' Hv'. eapply negotiate_functional; eassumption. }
  eexists. split; [reflexivity |]. rewrite Hsend.
  unfold writeHeadAndPipe, pipeFile, streamedHeaders.
  by destruct (readStream (variantPath v)).
Qed.

(** ** The middleware *)

Lemma getHeaders_keys (file : AvailableFile) (options : StaticServerOptions) (k : string) :
  is_Some (getHeaders file options !! k) → k ∈ validatorKeys.
Proof.
  intros [v Hv]. unfold getHeaders in Hv. unfold validatorKeys.
  destruct (contentType file) as [ct|]; [destruct (JsString.truthy ct)|];
    repeat (apply lookup_insert_Some in Hv as [[<- _] | [_ Hv]]; [set_solver |]);
    by rewrite lookup_empty in Hv.
Qed.

Lemma getHeaders_no_content_length (file : AvailableFile) (options : StaticServerOptions) :
  getHeaders file options !! "content-length" = None.
Proof.
  destruct (getHeaders file options !! "content-length") eqn:E; [|done].
  assert (H : is_Some (getHeaders file options !! "content-length")) by eauto.
  apply getHeaders_keys in H. unfold validatorKeys in H. set_unfold.
  destruct_or?; done.
Qed.

Lemma getHeaders_no_content_encoding (file : AvailableFile) (options : StaticServerOptions) :
  getHeaders file options !! "content-encoding" = None.
Proof.
  destruct (getHeaders file options !! "content-encoding") eqn:E; [|done].
  assert (H : is_Some (getHeaders file options !! "content-encoding")) by eauto.
  apply getHeaders_keys in H. unfold validatorKeys in H. set_unfold.
  destruct_or?; done.
Qed.

Lemma etagMatches_true (requestEtag : option string) (file : AvailableFile) :
  etagMatches requestEtag file = true ↔ requestEtag = Some (etag file).
Proof.
  unfold etagMatches. destruct requestEtag as [e|]; [|done].
  rewrite String.eqb_eq. split; congruence.
Qed.

Lemma serve_not_modified (staticPaths : AvailableFiles) (options : StaticServerOptions)
    (readStream : string → StreamResult) (req : Request) (next : bool)
    (file : AvailableFile) :
  getFileToServe staticPaths (index options) (fallback options) (req_path req) = Some file →
  req_headers req !! "if-none-match" = Some (etag file) →
  serve staticPaths options readStream req next
  = sendNotModified (getHeaders file options).
Proof.
  intros Hfile Hetag. unfold serve. rewrite Hfile.
  apply etagMatches_true in Hetag. by rewrite Hetag.
Qed.

Lemma serve_streams (staticPaths : AvailableFiles) (options : StaticServerOptions)
    (readStream : string → StreamResult) (req : Request) (next : bool)
    (file : AvailableFile) :
  getFileToServe staticPaths (index options) (fallback options) (req_path req) = Some file →
  req_headers req !! "if-none-match" ≠ Some (etag file) →
  ∃ v, NegotiatorSpec.negotiate file (req_headers req !! "accept-encoding") v ∧
       serve staticPaths options readStream req next
       = streamingResponse readStream (getHeaders file options) v.
Proof.
  intros Hfile Hetag. unfold serve. rewrite Hfile.
  destruct (etagMatches _ file) eqn:E; [by apply etagMatches_true in E |].
  destruct (sendFile_negotiated readStream file (getHeaders file options) req)
    as (v & Hv & ->).
  exists v. split; [done |].
  unfold writeHeadAndPipe, pipeFile, streamingResponse.
  by destruct (readStream (variantPath v)).
Qed.

Lemma serve_unmatched (staticPaths : AvailableFiles) (options : StaticServerOptions)
    (readStream : string → StreamResult) (req : Request) (next : bool) :
  getFileToServe staticPaths (index options) (fallback options) (req_path req) = None →
  serve staticPaths options readStream req next
  = if next then [EvNext] else [EvWriteHead 404 ∅; EvEnd "Not Found"].
Proof. intros Hfile. unfold serve. by rewrite Hfile. Qed.

(** C3: when the If-None-Match value is the very string of the resolved
    entry's etag, the response is 304 with the validator's header set and an
    empty body, whatever the other headers of the request are; with another
    value, or none, the file is streamed. *)
Theorem serve_conditional_request (staticPaths : AvailableFiles)
    (options : StaticServerOptions) (readStream : string → StreamResult)
    (req : Request) (next : bool) (file : AvailableFile) :
  getFileToServe staticPaths (index options) (fallback options) (req_path req) = Some file →
  (req_headers req !! "if-none-match" = Some (etag file) →
     serve staticPaths options readStream req next
     = [EvWriteHead 304 (getHeaders file options); EvLogInfo (getHeaders file options);
        EvEnd ""]) ∧
  (req_headers req !! "if-none-match" ≠ Some (etag file) →
     ∃ v, NegotiatorSpec.negotiate file (req_headers req !! "accept-encoding") v ∧
          serve staticPaths options readStream req next
          = streamingResponse readStream (getHeaders file options) v).
Proof.
  intros Hfile. split; intros Hetag.
  - by rewrite (serve_not_modified _ _ _ _ _ file).
  - by apply serve_streams.
Qed.


Lemma streamingResponse_headBeforeBody (readStream : string → StreamResult)
    (headers : Headers) (v : Variant) :
  headBeforeBody (streamingResponse readStream headers v).
Proof.
  intros i p r Hi. unfold streamingResponse in *.
  destruct i as [|[|[|i]]]; try discriminate.
  - exists 0%nat, (streamedHeaders headers v). split; [lia | done].
  - exfalso. cbn in Hi. destruct (readStream (variantPath v)); [done |].
    destruct i as [|[|[|i]]]; discriminate.
Qed.

Lemma negotiate_label (entry : AvailableFile) (header : option string) (v : Variant) :
  NegotiatorSpec.negotiate entry header v →
  is_Some (encodingLabel v)
  ↔ ∃ c, (br entry = Some c ∧ v = NegotiatorSpec.brotliVariant c) ∨
         (gzip entry = Some c ∧ v = NegotiatorSpec.gzipVariant c).
Proof.
  intros [b Ho Hb | g Hnb Ho Hg | Hnb Hng]; cbn.
  - split; [eauto | eauto].
  - split; [eauto | eauto].
  - split; [by intros [? ?] |].
    intros [c [[_ H] | [_ H]]]; discriminate.
Qed.

Lemma negotiate_prefers_brotli (entry : AvailableFile) (a : string)
    (b : CompressedInfo) (v : Variant) :
  NegotiatorSpec.negotiate entry (Some a) v →
  Contains a "br" → br entry = Some b → v = NegotiatorSpec.brotliVariant b.
Proof.
  intros Hv Ha Hb.
  assert (Ho : NegotiatorSpec.offers (Some a) "br") by (exists a; eauto).
  destruct Hv as [b' Ho' Hb' | g Hnb _ _ | Hnb _].
  - congruence.
  - destruct Hnb. eauto.
  - destruct Hnb. eauto.
Qed.

(** C7: a streamed response starts with a status 200 head whose headers are
    the validator's set plus content-length, the recorded size of the chosen
    variant, and plus content-encoding exactly when the chosen variant is a
    compressed one; the file is piped only after that head.  With both
    siblings recorded and [br] in Accept-Encoding, the head carries
    content-encoding [br] and the size of the brotli sibling. *)
Theorem serve_streamed_response (staticPaths : AvailableFiles)
    (options : StaticServerOptions) (readStream : string → StreamResult)
    (req : Request) (next : bool) (file : AvailableFile) :
  getFileToServe staticPaths (index options) (fallback options) (req_path req) = Some file →
  req_headers req !! "if-none-match" ≠ Some (etag file) →
  ∃ v h rest,
    NegotiatorSpec.negotiate file (req_headers req !! "accept-encoding") v ∧
    serve staticPaths options readStream req next
    = EvWriteHead 200 h :: EvLogInfo h ::
      EvPipe (variantPath v) (readStream (variantPath v)) :: rest ∧
    h !! "content-length" = Some (HNum (variantSize v)) ∧
    h !! "content-encoding" = HStr <$> encodingLabel v ∧
    (is_Some (h !! "content-encoding")
     ↔ ∃ c, (br file = Some c ∧ v = NegotiatorSpec.brotliVariant c) ∨
            (gzip file = Some c ∧ v = NegotiatorSpec.gzipVariant c)) ∧
    (∀ k, k ≠ "content-length" → k ≠ "content-encoding" →
          h !! k = getHeaders file options !! k) ∧
    headBeforeBody (serve staticPaths options readStream req next) ∧
    (∀ a b g, req_headers req !! "accept-encoding" = Some a → Contains a "br" →
              br file = Some b → gzip file = Some g →
              h !! "content-encoding" = Some (HStr "br") ∧
              h !! "content-length" = Some (HNum (ci_size b))).
Proof.
  intros Hfile Hetag.
  destruct (serve_streams staticPaths options readStream req next file Hfile Hetag)
    as (v & Hv & Hserve).
  set (h := streamedHeaders (getHeaders file options) v).
  assert (Hlen : h !! "content-length" = Some (HNum (variantSize v))).
  { unfold h, streamedHeaders. by rewrite lookup_insert_eq. }
  assert (Henc : h !! "content-encoding" = HStr <$> encodingLabel v).
  { unfold h, streamedHeaders. rewrite lookup_insert_ne by done.
    destruct (encodingLabel v) as [label|].
    - by rewrite lookup_insert_eq.
    - apply getHeaders_no_content_encoding. }
  eexists v, h, _. split; [done |]. split; [exact Hserve |].
  split; [done |]. split; [done |]. split; [|split; [|split]].
  - rewrite Henc, <- (negotiate_label file _ v Hv).
    destruct (encodingLabel v); cbn; split; intros [? ?]; eauto; discriminate.
  - intros k Hk1 Hk2. unfold h, streamedHeaders. rewrite lookup_insert_ne by done.
    destruct (encodingLabel v); [by rewrite lookup_insert_ne | done].
  - rewrite Hserve. apply streamingResponse_headBeforeBody.
  - intros a b g Ha Hbr Hb Hg. rewrite Ha in Hv.
    rewrite Henc, Hlen.
    by rewrite (negotiate_prefers_brotli file a b v Hv Hbr Hb).
Qed.

(** C10: a 304 head written by [serve] carries exactly the validator's
    header set of the resolved entry, hence neither content-length nor
    content-encoding, whatever variants the entry has and whatever the
    request's Accept-Encoding is: the etag is compared before any
    negotiation. *)
Theorem serve_not_modified_headers (staticPaths : AvailableFiles)
    (options : StaticServerOptions) (readStream : string → StreamResult)
    (req : Request) (next : bool) (h : Headers) :
  EvWriteHead 304 h ∈ serve staticPaths options readStream req next →
  h !! "content-length" = None ∧
  h !! "content-encoding" = None ∧
  (∀ k, is_Some (h !! k) → k ∈ validatorKeys) ∧
  ∃ file,
    getFileToServe staticPaths (index options) (fallback options) (req_path req) = Some file ∧
    req_headers req !! "if-none-match" = Some (etag file) ∧
    h = getHeaders file options.
Proof.
  intros Hin.
  destruct (getFileToServe staticPaths (index options) (fallback options) (req_path req))
    as [file|] eqn:Hfile.
  - destruct (decide (req_headers req !! "if-none-match" = Some (etag file))) as [He | He].
    + rewrite (serve_not_modified _ _ _ _ _ file Hfile He) in Hin.
      unfold sendNotModified in Hin. set_unfold in Hin.
      destruct Hin as [[= ->] | [? | [? | []]]]; try discriminate.
      split; [apply getHeaders_no_content_length |].
      split; [apply getHeaders_no_content_encoding |].
      split; [intros k; apply getHeaders_keys | eauto].
    + exfalso.
      destruct (serve_streams _ _ readStream _ next file Hfile He) as (v & _ & Hs).
      rewrite Hs in Hin. unfold streamingResponse in Hin.
      destruct (readStream (variantPath v)); set_unfold in Hin;
        destruct_or?; try discriminate; done.
  - exfalso. rewrite (serve_unmatched _ _ _ _ _ Hfile) in Hin.
    destruct next; set_unfold in Hin; destruct_or?; try discriminate; done.
Qed.

(** ** More on the resolver and the middleware *)

Lemma getFileToServe_entry (staticPaths : AvailableFiles) (indexPath : string)
    (fallbackPath : option string) (reqPath : string) (file : AvailableFile) :
  getFileToServe staticPaths indexPath fallbackPath reqPath = Some file →
  ∃ k, staticPaths !! k = Some file.
Proof.
  unfold getFileToServe.
  repeat match goal with
         | |- context [match ?m !! ?k with _ => _ end] => destruct (m !! k) eqn:?
         | |- context [match ?o with Some _ => _ | None => _ end] => destruct o
         | |- context [if ?b then _ else _] => destruct b
         end;
    (intros [= <-] || discriminate); eauto.
Qed.

Lemma getFileToServe_exact (staticPaths : AvailableFiles) (indexPath : string)
    (fallbackPath : option string) (k : string) (file : AvailableFile) :
  staticPaths !! k = Some file → k ≠ "/" →
  getFileToServe staticPaths indexPath fallbackPath k = Some file.
Proof.
  intros Hk Hne. unfold getFileToServe.
  destruct (String.eqb_spec k "/"); [done |]. by rewrite Hk.
Qed.

Lemma endsWithSlash_append_slash (p : string) : JsString.endsWithSlash (p +:+ "/") = true.
Proof.
  unfold JsString.endsWithSlash.
  assert (H : JsString.lastChar (p +:+ "/") = Some "/"%char); [|by rewrite H].
  induction p as [|c p IH]; [done |]. rewrite append_cons.
  change (JsString.lastChar (String c (p +:+ "/")))
    with (match p +:+ "/" with
          | EmptyString => Some c
          | String _ _ => JsString.lastChar (p +:+ "/")
          end).
  rewrite IH. by destruct p.
Qed.

(** A path that is not itself a key resolves to the same entry with and
    without a slash at its end. *)
Theorem getFileToServe_trailing_slash (staticPaths : AvailableFiles) (indexPath : string)
    (fallbackPath : option string) (p : string) :
  p ≠ "" → JsString.endsWithSlash p = false →
  staticPaths !! p = None → staticPaths !! (p +:+ "/") = None →
  getFileToServe staticPaths indexPath fallbackPath (p +:+ "/")
  = getFileToServe staticPaths indexPath fallbackPath p.
Proof.
  intros Hne Hslash Hp Hps. unfold getFileToServe.
  destruct (String.eqb_spec (p +:+ "/") "/") as [Heq | _].
  { destruct p as [|c p]; [done |]. rewrite append_cons in Heq.
    injection Heq as _ Heq. by destruct p. }
  destruct (String.eqb_spec p "/") as [-> | _]; [done |].
  by rewrite Hp, Hps, Hslash, endsWithSlash_append_slash, append_assoc.
Qed.

(** What [serve] does for a resolved entry. *)
Lemma serve_resolved (staticPaths : AvailableFiles) (options : StaticServerOptions)
    (readStream : string → StreamResult) (req : Request) (next : bool)
    (file : AvailableFile) :
  getFileToServe staticPaths (index options) (fallback options) (req_path req) = Some file →
  serve staticPaths options readStream req next = sendNotModified (getHeaders file options) ∨
  ∃ v, NegotiatorSpec.negotiate file (req_headers req !! "accept-encoding") v ∧
       serve staticPaths options readStream req next
       = streamingResponse readStream (getHeaders file options) v.
Proof.
  intros Hfile.
  destruct (decide (req_headers req !! "if-none-match" = Some (etag file))) as [He | He].
  - left. by apply serve_not_modified.
  - right. by apply serve_streams.
Qed.

(** With a fallback that is a key of the index, every request is resolved:
    [serve] answers it from the index, and never hands it to the next handler
    nor answers 404. *)
Theorem serve_with_fallback (staticPaths : AvailableFiles) (options : StaticServerOptions)
    (readStream : string → StreamResult) (req : Request) (next : bool)
    (fp : string) (page : AvailableFile) :
  fallback options = Some fp → fp ≠ "" → staticPaths !! fp = Some page →
  is_Some (getFileToServe staticPaths (index options) (fallback options) (req_path req)) ∧
  (EvNext ∉ serve staticPaths options readStream req next) ∧
  (∀ h, EvWriteHead 404 h ∉ serve staticPaths options readStream req next).
Proof.
  intros Hfb Hne Hpage.
  assert (Hsome : is_Some (getFileToServe staticPaths (index options) (fallback options)
                             (req_path req))).
  { unfold getFileToServe. rewrite Hfb. apply truthy_true in Hne. rewrite Hne, Hpage.
    repeat match goal with
           | |- context [match ?m !! ?k with _ => _ end] => destruct (m !! k) eqn:?
           end; eauto. }
  split; [done |]. destruct Hsome as [file Hfile].
  destruct (serve_resolved staticPaths options readStream req next file Hfile)
    as [-> | (v & _ & ->)].
  - unfold sendNotModified. split; [|intros h]; intros Hin; set_unfold in Hin;
      destruct_or?; done.
  - unfold streamingResponse. split; [|intros h]; intros Hin;
      destruct (readStream (variantPath v)); set_unfold in Hin; destruct_or?; done.
Qed.


(** *** What the logger reads after [serve] *)

Lemma logInfoAfter_streaming (readStream : string → StreamResult) (headers : Headers)
    (v : Variant) :
  RequestLogger.logInfoAfter (streamingResponse readStream headers v)
  = Some (streamedHeaders headers v).
Proof. unfold streamingResponse. by destruct (readStream (variantPath v)). Qed.

(** After a streamed response, the logger reads the size of the variant that
    was sent, and its encoding label, or [no encoding] for the original
    file. *)
Theorem logger_reads_streamed_variant (staticPaths : AvailableFiles)
    (options : StaticServerOptions) (readStream : string → StreamResult)
    (req : Request) (next : bool) (file : AvailableFile) :
  getFileToServe staticPaths (index options) (fallback options) (req_path req) = Some file →
  req_headers req !! "if-none-match" ≠ Some (etag file) →
  ∃ v, NegotiatorSpec.negotiate file (req_headers req !! "accept-encoding") v ∧
    let logInfo := RequestLogger.logInfoAfter (serve staticPaths options readStream req next) in
    RequestLogger.getContentLength logInfo = HNum (variantSize v) ∧
    RequestLogger.getEncoding logInfo
    = HStr (default "no encoding" (encodingLabel v)).
Proof.
  intros Hfile Hetag.
  destruct (serve_streams staticPaths options readStream req next file Hfile Hetag)
    as (v & Hv & ->).
  exists v. split; [done |]. cbv zeta. rewrite logInfoAfter_streaming.
  unfold RequestLogger.getContentLength, RequestLogger.getEncoding, streamedHeaders. cbn.
  rewrite lookup_insert_eq, lookup_insert_ne by done. split; [done |].
  destruct (encodingLabel v) as [label|]; cbn.
  - by rewrite lookup_insert_eq.
  - by rewrite getHeaders_no_content_encoding.
Qed.

(** When [serve] streams no file (a 304, the next handler, a 404), the
    logger reads a length of 0 and [no encoding]. *)
Theorem logger_reads_no_body (staticPaths : AvailableFiles)
    (options : StaticServerOptions) (readStream : string → StreamResult)
    (req : Request) (next : bool) :
  (∀ p outcome, EvPipe p outcome ∉ serve staticPaths options readStream req next) →
  let logInfo := RequestLogger.logInfoAfter (serve staticPaths options readStream req next) in
  RequestLogger.getContentLength logInfo = HNum 0 ∧
  RequestLogger.getEncoding logInfo = HStr "no encoding".
Proof.
  intros Hnone. cbv zeta.
  destruct (getFileToServe staticPaths (index options) (fallback options) (req_path req))
    as [file|] eqn:Hfile.
  - destruct (serve_resolved staticPaths options readStream req next file Hfile)
      as [Hs | (v & _ & Hs)]; rewrite Hs in *.
    + unfold RequestLogger.getContentLength, RequestLogger.getEncoding. cbn.
      by rewrite getHeaders_no_content_length, getHeaders_no_content_encoding.
    + exfalso. apply (Hnone (variantPath v) (readStream (variantPath v))).
      unfold streamingResponse. set_solver.
  - rewrite (serve_unmatched _ _ _ _ _ Hfile). by destruct next.
Qed.

(** *** The string hashed for an etag *)

Lemma Contains_cons (c : ascii) (s t : string) :
  Contains (String c s) t → JsString.startsWith t (String c s) = true ∨ Contains s t.
Proof.
  intros [a [b Hab]]. destruct a as [|x a].
  - left. apply startsWith_prefix. by exists b.
  - right. rewrite append_cons in Hab. injection Hab as _ ->. by exists a, b.
Qed.

Lemma pretty_N_go_no_dash (x : N) (s : string) :
  ¬ Contains s "-" → ¬ Contains (pretty_N_go x s) "-".
Proof.
  revert s. induction (N.lt_wf_0 x) as [x _ IH]; intros s Hs.
  assert (x = 0 ∨ 0 < x)%N as [-> | Hx] by lia; [by rewrite pretty_N_go_0 |].
  rewrite pretty_N_go_step by done. apply IH; [by apply N.div_lt |].
  intros [Hc | Hc]%Contains_cons; [|done].
  unfold pretty_N_char in Hc. by repeat case_match.
Qed.

Lemma numberToString_no_dash (n : Z) : 0 ≤ n → ¬ Contains (numberToString n) "-".
Proof.
  intros Hn. unfold numberToString, pretty, pretty_Z. destruct n as [|x|x]; [| |lia].
  - intros [Hc | Hc]%Contains_cons; [done |]. by apply not_Contains_empty in Hc.
  - unfold pretty, pretty_positive, pretty, pretty_N. case_decide; [done |].
    apply pretty_N_go_no_dash. by apply not_Contains_empty.
Qed.

(** A string is cut in one way only at its last [-]. *)
Lemma split_at_last_dash (a a' b b' : string) :
  ¬ Contains b "-" → ¬ Contains b' "-" →
  a +:+ "-" +:+ b = a' +:+ "-" +:+ b' → a = a' ∧ b = b'.
Proof.
  intros Hb Hb'. revert a'. induction a as [|c a IH]; intros [|c' a'] Heq.
  - rewrite ?append_cons, ?append_nil in Heq. by injection Heq as ->.
  - rewrite ?append_cons, ?append_nil in Heq. injection Heq as _ ->.
    destruct Hb. by exists a', b'.
  - rewrite ?append_cons, ?append_nil in Heq. injection Heq as _ <-.
    destruct Hb'. by exists a, b.
  - rewrite !(append_cons c), !(append_cons c') in Heq. injection Heq as -> Heq.
    by destruct (IH a' Heq) as [-> ->].
Qed.

(** The string [getFilePathInfo] gives to the hash tells the path, the size
    and the modification time apart: two files, or two states of a file,
    are hashed from the same string only when all three are the same. *)
Theorem etag_input_injective (p1 p2 : string) (size1 mtime1 size2 mtime2 : Z) :
  0 ≤ size1 → 0 ≤ mtime1 → 0 ≤ size2 → 0 ≤ mtime2 →
  p1 +:+ "-" +:+ numberToString size1 +:+ "-" +:+ numberToString mtime1
  = p2 +:+ "-" +:+ numberToString size2 +:+ "-" +:+ numberToString mtime2 →
  p1 = p2 ∧ size1 = size2 ∧ mtime1 = mtime2.
Proof.
  intros Hs1 Hm1 Hs2 Hm2 Heq.
  rewrite <- !(append_assoc p1), <- !(append_assoc p2) in Heq.
  rewrite <- (append_assoc (p1 +:+ "-")), <- (append_assoc (p2 +:+ "-")) in Heq.
  apply split_at_last_dash in Heq as [Heq Hm]; [|by apply numberToString_no_dash..].
  rewrite !append_assoc in Heq.
  apply split_at_last_dash in Heq as [Hp Hs]; [|by apply numberToString_no_dash..].
  split; [done |]. split; by apply (inj pretty).
Qed.

(** ** The index builder *)

Lemma await_Fulfilled {A B : Type} (p : Async A) (k : A → Async B) (b : B) :
  p ≫= k = Fulfilled b → ∃ a, p = Fulfilled a ∧ k a = Fulfilled b.
Proof. destruct p as [a| |]; cbn; [eauto | done | done]. Qed.

Lemma await_Rejected {A B : Type} (p : Async A) (k : A → Async B) (e : BuildError) :
  p ≫= k = Rejected e → p = Rejected e ∨ ∃ a, p = Fulfilled a ∧ k a = Rejected e.
Proof. destruct p as [a| |]; cbn; [eauto | intros [= ->]; eauto | done]. Qed.

Lemma await_OutOfFuel {A B : Type} (p : Async A) (k : A → Async B) :
  p ≫= k = OutOfFuel → p = OutOfFuel ∨ ∃ a, p = Fulfilled a ∧ k a = OutOfFuel.
Proof. destruct p as [a| |]; cbn; [eauto | done | eauto]. Qed.

Lemma forEachAsync_Fulfilled {A S : Type} (settled : BuildError → nat)
    (f : S → A → Async S) (x : A) (rest : list A) (acc acc' : S) :
  forEachAsync settled f acc (x :: rest) = Fulfilled acc' →
  ∃ a, f acc x = Fulfilled a ∧ forEachAsync settled f a rest = Fulfilled acc'.
Proof.
  cbn. destruct (f acc x) as [a|e|]; [eauto | | done].
  by destruct (forEachAsync settled f acc rest).
Qed.

Lemma forEachAsync_invariant {A S : Type} (settled : BuildError → nat)
    (f : S → A → Async S) (I : S → Prop) (l : list A) (acc acc' : S) :
  forEachAsync settled f acc l = Fulfilled acc' →
  I acc →
  (∀ a x a', x ∈ l → I a → f a x = Fulfilled a' → I a') →
  I acc'.
Proof.
  revert acc. induction l as [|x l IH]; intros acc Hrun Hacc Hstep.
  - cbn in Hrun. by injection Hrun as <-.
  - apply forEachAsync_Fulfilled in Hrun as (a & Hx & Hrun).
    apply (IH a Hrun).
    + apply (Hstep acc x a); [set_solver | done | done].
    + intros a0 y a1 Hy. apply Hstep. set_solver.
Qed.

Lemma forEachAsync_each_fulfilled {A S : Type} (settled : BuildError → nat)
    (f : S → A → Async S) (l : list A) (acc acc' : S) :
  forEachAsync settled f acc l = Fulfilled acc' →
  ∀ x, x ∈ l → ∃ a a', f a x = Fulfilled a'.
Proof.
  revert acc. induction l as [|y l IH]; intros acc Hrun x Hx.
  - set_solver.
  - apply forEachAsync_Fulfilled in Hrun as (a & Hy & Hrun).
    apply elem_of_cons in Hx as [-> | Hx]; [eauto |].
    by apply (IH a Hrun).
Qed.

Lemma firstSettled_cases (settled : BuildError → nat) (e e' : BuildError) :
  (firstSettled settled e e' = e ∧ (settled e ≤ settled e')%nat) ∨
  (firstSettled settled e e' = e' ∧ (settled e' ≤ settled e)%nat).
Proof.
  unfold firstSettled. destruct (Nat.ltb_spec (settled e') (settled e)); [right | left];
    (split; [done | lia]).
Qed.

Lemma forEachAsync_Rejected {A S : Type} (settled : BuildError → nat)
    (f : S → A → Async S) (l : list A) (acc : S) (e : BuildError) :
  forEachAsync settled f acc l = Rejected e → ∃ x a, x ∈ l ∧ f a x = Rejected e.
Proof.
  revert acc e. induction l as [|y l IH]; intros acc e Hrun; cbn in Hrun; [done |].
  destruct (f acc y) as [a|e1|] eqn:Hy; [| |done].
  - destruct (IH a e Hrun) as (x & a' & Hx & Hfx). exists x, a'. split; [set_solver | done].
  - destruct (forEachAsync settled f acc l) as [a|e2|] eqn:Hrest; [| |done].
    + injection Hrun as <-. exists y, acc. split; [set_solver | done].
    + injection Hrun as <-.
      destruct (firstSettled_cases settled e1 e2) as [[-> _] | [-> _]].
      * exists y, acc. split; [set_solver | done].
      * destruct (IH acc e2 Hrest) as (x & a' & Hx & Hfx).
        exists x, a'. split; [set_solver | done].
Qed.

Lemma forEachAsync_OutOfFuel {A S : Type} (settled : BuildError → nat)
    (f : S → A → Async S) (l : list A) (acc : S) :
  forEachAsync settled f acc l = OutOfFuel → ∃ x a, x ∈ l ∧ f a x = OutOfFuel.
Proof.
  revert acc. induction l as [|y l IH]; intros acc Hrun; cbn in Hrun; [done |].
  destruct (f acc y) as [a|e1|] eqn:Hy.
  - destruct (IH a Hrun) as (x & a' & Hx & Hfx). exists x, a'. split; [set_solver | done].
  - destruct (forEachAsync settled f acc l) as [a|e2|] eqn:Hrest; [done | done |].
    destruct (IH acc Hrest) as (x & a' & Hx & Hfx). exists x, a'. split; [set_solver | done].
  - exists y, acc. split; [set_solver | done].
Qed.

(** *** The callbacks settle the same on every accumulator *)

Lemma forEachAsync_settlement {A S : Type} (settled : BuildError → nat)
    (f : S → A → Async S) (l : list A) (acc acc' : S) :
  (∀ a a' x, x ∈ l → settlement (f a x) = settlement (f a' x)) →
  settlement (forEachAsync settled f acc l) = settlement (forEachAsync settled f acc' l).
Proof.
  revert acc acc'. induction l as [|y l IH]; intros acc acc' Hf; [done |].
  assert (Hy : settlement (f acc y) = settlement (f acc' y)) by (apply Hf; set_solver).
  assert (Hrest : ∀ a a', settlement (forEachAsync settled f a l)
                          = settlement (forEachAsync settled f a' l)).
  { intros a a'. apply IH. intros a0 a1 x Hx. apply Hf. set_solver. }
  cbn [forEachAsync].
  destruct (f acc y) as [a1|e1|], (f acc' y) as [a2|e2|]; try discriminate;
    [apply Hrest | | done].
  injection Hy as <-. specialize (Hrest acc acc').
  destruct (forEachAsync settled f acc l), (forEachAsync settled f acc' l);
    try discriminate; [done | | done].
  by injection Hrest as <-.
Qed.

(** A rejected [Promise.all] names a rejection that settles no later than
    that of any of its callbacks. *)
Lemma forEachAsync_first {A S : Type} (settled : BuildError → nat)
    (f : S → A → Async S) (l : list A) (acc : S) (e : BuildError) :
  (∀ a a' x, x ∈ l → settlement (f a x) = settlement (f a' x)) →
  forEachAsync settled f acc l = Rejected e →
  ∀ x a e', x ∈ l → f a x = Rejected e' → (settled e ≤ settled e')%nat.
Proof.
  revert acc e. induction l as [|y l IH]; intros acc e Hf Hrun x a e' Hx Hfx;
    [set_solver |].
  assert (Hl : ∀ a a' x, x ∈ l → settlement (f a x) = settlement (f a' x)).
  { intros a0 a1 z Hz. apply Hf. by constructor. }
  assert (Hy : ∀ a0, x = y → f a0 y = Rejected e').
  { intros a0 ->. pose proof (Hf a a0 y Hx) as H. rewrite Hfx in H.
    destruct (f a0 y); by try injection H as <-. }
  cbn in Hrun. destruct (f acc y) as [a1|e1|] eqn:Hacc; [| |done].
  - apply elem_of_cons in Hx as [Hx | Hx].
    + rewrite (Hy acc Hx) in Hacc. discriminate.
    + by apply (IH a1 e Hl Hrun x a e').
  - destruct (forEachAsync settled f acc l) as [a2|e2|] eqn:Hrest; [| |done].
    + injection Hrun as <-. apply elem_of_cons in Hx as [Hx | Hx].
      * rewrite (Hy acc Hx) in Hacc. by injection Hacc as <-.
      * destruct (forEachAsync_each_fulfilled _ _ _ _ _ Hrest x Hx) as (a0 & a3 & H0).
        pose proof (Hl a a0 x Hx) as H. rewrite Hfx, H0 in H. discriminate.
    + injection Hrun as <-. apply elem_of_cons in Hx as [Hx | Hx].
      * rewrite (Hy acc Hx) in Hacc. injection Hacc as <-.
        destruct (firstSettled_cases settled e' e2) as [[-> _] | [-> ?]]; [done | lia].
      * pose proof (IH acc e2 Hl Hrest x a e' Hx Hfx).
        destruct (firstSettled_cases settled e1 e2) as [[-> ?] | [-> _]]; [lia | done].
Qed.

(** A [Promise.all] that settles had every callback settle. *)
Lemma forEachAsync_all_settle {A S : Type} (settled : BuildError → nat)
    (f : S → A → Async S) (l : list A) (acc : S) :
  (∀ a a' x, x ∈ l → settlement (f a x) = settlement (f a' x)) →
  forEachAsync settled f acc l ≠ OutOfFuel →
  ∀ x a, x ∈ l → f a x ≠ OutOfFuel.
Proof.
  revert acc. induction l as [|y l IH]; intros acc Hf Hrun x a Hx Hfx; [set_solver |].
  assert (Hl : ∀ a a' x, x ∈ l → settlement (f a x) = settlement (f a' x)).
  { intros a0 a1 z Hz. apply Hf. by constructor. }
  cbn in Hrun. apply elem_of_cons in Hx as [-> | Hx].
  - pose proof (Hf a acc y ltac:(set_solver)) as H. rewrite Hfx in H.
    by destruct (f acc y).
  - destruct (f acc y) as [a1|e1|]; [| |done].
    + by apply (IH a1 Hl Hrun x a).
    + apply (IH acc Hl) with (x := x) (a := a); [|done | done].
      by destruct (forEachAsync settled f acc l).
Qed.

(** *** Paths *)

Lemma substr_append (a b : string) : JsString.substr (a +:+ b) (String.length a) = b.
Proof. induction a as [|c a IH]; [by destruct b | done]. Qed.

Lemma join_append (dir name : string) :
  ∃ s, NodePath.join dir name = dir +:+ s ∧
       (JsString.endsWithSlash dir = false → JsString.startsWith "/" s = true).
Proof.
  unfold NodePath.join. destruct (JsString.endsWithSlash dir).
  - by exists name.
  - by exists ("/" +:+ name).
Qed.

Lemma hasSlash_append (a b : string) :
  NodePath.hasSlash (a +:+ b) = NodePath.hasSlash a || NodePath.hasSlash b.
Proof.
  induction a as [|c a IH]; [done |]. rewrite append_cons. cbn. rewrite IH.
  by rewrite orb_assoc.
Qed.

Lemma lastPortion_no_slash (t : string) :
  NodePath.hasSlash t = false → NodePath.lastPortion t = t.
Proof.
  destruct t as [|c t]; [done |]. cbn. intros H.
  apply orb_false_iff in H as [-> ->]. done.
Qed.

Lemma lastPortion_append (p t : string) :
  NodePath.hasSlash t = false →
  NodePath.lastPortion (p +:+ t) = NodePath.lastPortion p +:+ t.
Proof.
  intros Ht. induction p as [|c p IH]; [by apply lastPortion_no_slash |].
  rewrite append_cons. cbn. rewrite hasSlash_append, Ht, orb_false_r.
  destruct (NodePath.hasSlash p); [done |].
  by destruct (NodePath.isSlash c).
Qed.

Lemma lastPortion_after_slash (a k : string) :
  NodePath.hasSlash k = true →
  NodePath.lastPortion (a +:+ k) = NodePath.lastPortion k.
Proof.
  intros Hk. induction a as [|c a IH]; [done |].
  rewrite append_cons. cbn. by rewrite hasSlash_append, Hk, orb_true_r.
Qed.

Lemma startsWith_slash_hasSlash (k : string) :
  JsString.startsWith "/" k = true → NodePath.hasSlash k = true.
Proof.
  intros H. by apply startsWith_prefix in H as [r ->].
Qed.

Lemma lastDot_append_dot (b t : string) :
  NodePath.lastDot t = None →
  NodePath.lastDot (b +:+ String "."%char t) = Some (String.length b).
Proof.
  intros Ht. induction b as [|c b IH].
  - rewrite append_nil. cbn [NodePath.lastDot]. by rewrite Ht.
  - rewrite append_cons. cbn [NodePath.lastDot String.length]. by rewrite IH.
Qed.

Lemma length_append (a b : string) :
  String.length (a +:+ b) = (String.length a + String.length b)%nat.
Proof. induction a as [|c a IH]; [done |]. rewrite append_cons. cbn. by rewrite IH. Qed.

Lemma endsWith_suffix (s t : string) :
  JsString.endsWith s t = true ↔ ∃ pre, s = pre +:+ t.
Proof.
  induction s as [|c s IH].
  - cbn [JsString.endsWith]. rewrite orb_false_r, String.eqb_eq. split.
    + intros <-. by exists "".
    + intros [pre H]. destruct pre; [done | discriminate].
  - cbn [JsString.endsWith]. rewrite orb_true_iff, String.eqb_eq, IH. split.
    + intros [<- | [pre ->]]; [by exists "" | by exists (String c pre)].
    + intros [pre H]. destruct pre as [|x pre]; [by left |].
      rewrite append_cons in H. injection H as _ ->. eauto.
Qed.

(** A path whose last portion carries one of the two extensions after a
    non-empty stem has that extension for [path.extname]. *)
Lemma extname_of_suffix (pre tail : string) :
  NodePath.hasSlash tail = false → NodePath.lastDot tail = None →
  String.length tail = 2%nat →
  NodePath.lastPortion pre ≠ "" →
  NodePath.extname (pre +:+ String "."%char tail) = String "."%char tail.
Proof.
  intros Hslash Hdot Hlen Hstem. unfold NodePath.extname.
  rewrite lastPortion_append by (cbn; by rewrite Hslash).
  rewrite lastDot_append_dot by done.
  destruct (NodePath.lastPortion pre) as [|c stem] eqn:E; [done |].
  cbn [String.length].
  destruct (String.eqb_spec (String c stem +:+ String "." tail) "..") as [Heq | _].
  - apply (f_equal String.length) in Heq. rewrite length_append in Heq. cbn in Heq. lia.
  - change (S (String.length stem)) with (String.length (String c stem)).
    apply substr_append.
Qed.

Lemma not_compressed_extname (isCompressed : bool) (p : string) :
  isCompressed = existsb (String.eqb (NodePath.extname p)) [".br"; ".gz"] →
  isCompressed = false →
  NodePath.extname p ≠ ".gz" ∧ NodePath.extname p ≠ ".br".
Proof.
  intros -> H. cbn in H. apply orb_false_iff in H as [Hbr H].
  apply orb_false_iff in H as [Hgz _].
  apply String.eqb_neq in Hbr, Hgz. done.
Qed.

(** A path that ends in [.gz] or [.br] and does not have that extension is
    the dot file of that name. *)
Lemma dot_file_of_suffix (p ext : string) :
  ext ∈ [".gz"; ".br"] → JsString.endsWith p ext = true →
  NodePath.extname p ≠ ext → NodePath.lastPortion p = ext.
Proof.
  intros Hext Hends Hne. apply endsWith_suffix in Hends as [pre ->].
  assert (Hcases : ext = String "."%char "gz" ∨ ext = String "."%char "br").
  { either_extension Hext; auto. }
  assert (Hstem : NodePath.lastPortion pre = "").
  { destruct (decide (NodePath.lastPortion pre = "")) as [|Hstem]; [done |].
    exfalso. apply Hne.
    destruct Hcases as [-> | ->]; by apply extname_of_suffix. }
  destruct Hcases as [-> | ->]; rewrite lastPortion_append by done; by rewrite Hstem.
Qed.

Section BuilderFacts.

Variable mime_getType : string → option string.
Variable xxhash_h32 : string → Z → Z.
Variable toUTCString : Z → string.

Section OneFileSystem.

Variable fs : FileSystem.

Local Abbreviation fill := (fillStaticPaths mime_getType xxhash_h32 toUTCString fs).
Local Abbreviation visit := (visitEntry mime_getType xxhash_h32 toUTCString fs).
Local Abbreviation fileInfo := (getFilePathInfo mime_getType xxhash_h32 toUTCString fs).
Local Abbreviation build := (getStaticPaths mime_getType xxhash_h32 toUTCString fs).
Local Abbreviation indexed := (Indexed mime_getType xxhash_h32 toUTCString fs).

Lemma stat_Fulfilled (p : string) (stats : Stats) :
  stat fs p = Fulfilled stats ↔ fs_stat fs p = Some stats.
Proof. unfold stat. destruct (fs_stat fs p); split; congruence. Qed.

Lemma stat_Rejected (p : string) (e : BuildError) :
  stat fs p = Rejected e ↔ fs_stat fs p = None ∧ e = StatFailed p.
Proof.
  unfold stat. destruct (fs_stat fs p); split; try congruence.
  - by intros [? _].
  - by intros [= <-].
  - by intros [_ ->].
Qed.

Lemma stat_not_OutOfFuel (p : string) : stat fs p ≠ OutOfFuel.
Proof. unfold stat. by destruct (fs_stat fs p). Qed.

(** The compressed sibling [p] of a file, as [getFilePathInfo] records it. *)
Local Abbreviation sibling p :=
  (if fileExists fs p
   then s ← stat fs p; Fulfilled (Some (mkCompressedInfo p (st_size s)))
   else Fulfilled None).

Lemma sibling_Fulfilled (p : string) (o : option CompressedInfo) :
  sibling p = Fulfilled o →
  (fs_access fs p = false ∧ o = None) ∨
  (fs_access fs p = true ∧
   ∃ s, fs_stat fs p = Some s ∧ o = Some (mkCompressedInfo p (st_size s))).
Proof.
  unfold fileExists, stat. destruct (fs_access fs p).
  - destruct (fs_stat fs p) as [s|]; cbn; [|done]. intros [= <-]. right. eauto.
  - intros [= <-]. by left.
Qed.

Lemma sibling_Rejected (p : string) (e : BuildError) :
  sibling p = Rejected e →
  fs_access fs p = true ∧ fs_stat fs p = None ∧ e = StatFailed p.
Proof.
  unfold fileExists, stat. destruct (fs_access fs p); [|done].
  destruct (fs_stat fs p) as [s|]; cbn; [done |]. by intros [= <-].
Qed.

Lemma sibling_not_OutOfFuel (p : string) : sibling p ≠ OutOfFuel.
Proof.
  unfold fileExists, stat. destruct (fs_access fs p); [|done].
  by destruct (fs_stat fs p).
Qed.

Lemma getFilePathInfo_Fulfilled (p : string) (stats : Stats) (file : AvailableFile) :
  fileInfo p stats = Fulfilled file →
  path file = p ∧
  contentType file = mime_getType p ∧
  size file = st_size stats ∧
  modifiedTime file = toUTCString (st_mtime stats) ∧
  etag file = etagOf xxhash_h32 p (st_size stats) (st_mtime stats) ∧
  (∀ c, gzip file = Some c →
        ci_path c = p +:+ ".gz" ∧ ∃ s, fs_stat fs (p +:+ ".gz") = Some s ∧ ci_size c = st_size s) ∧
  (∀ c, br file = Some c →
        ci_path c = p +:+ ".br" ∧ ∃ s, fs_stat fs (p +:+ ".br") = Some s ∧ ci_size c = st_size s) ∧
  (∀ ext, ext ∈ [".gz"; ".br"] → fs_access fs (p +:+ ext) = true →
          fs_stat fs (p +:+ ext) ≠ None).
Proof.
  unfold getFilePathInfo. cbv zeta. intros H.
  apply await_Fulfilled in H as (gz & Hgz & H).
  apply await_Fulfilled in H as (b & Hb & H).
  injection H as <-. cbn.
  apply sibling_Fulfilled in Hgz, Hb.
  do 5 (split; [done |]). split; [|split].
  - intros c ->. destruct Hgz as [[_ [=]] | (_ & s & Hs & [= ->])]. eauto.
  - intros c ->. destruct Hb as [[_ [=]] | (_ & s & Hs & [= ->])]. eauto.
  - intros ext Hext Ha. either_extension Hext.
    + destruct Hgz as [[? _] | (_ & s & Hs & _)]; congruence.
    + destruct Hb as [[? _] | (_ & s & Hs & _)]; congruence.
Qed.

Lemma getFilePathInfo_Rejected (p : string) (stats : Stats) (e : BuildError) :
  fileInfo p stats = Rejected e →
  ∃ ext, ext ∈ [".gz"; ".br"] ∧ fs_access fs (p +:+ ext) = true ∧
         fs_stat fs (p +:+ ext) = None ∧ e = StatFailed (p +:+ ext).
Proof.
  unfold getFilePathInfo. cbv zeta. intros H.
  apply await_Rejected in H as [Hgz | (gz & _ & H)].
  { apply sibling_Rejected in Hgz. exists ".gz". split; [by constructor | done]. }
  apply await_Rejected in H as [Hb | (b & _ & [=])].
  apply sibling_Rejected in Hb. exists ".br". split; [by do 2 constructor | done].
Qed.

Lemma getFilePathInfo_not_OutOfFuel (p : string) (stats : Stats) :
  fileInfo p stats ≠ OutOfFuel.
Proof.
  unfold getFilePathInfo. cbv zeta. intros H.
  apply await_OutOfFuel in H as [Hgz | (gz & _ & H)].
  { by apply sibling_not_OutOfFuel in Hgz. }
  apply await_OutOfFuel in H as [Hb | (b & _ & [=])].
  by apply sibling_not_OutOfFuel in Hb.
Qed.

Lemma fill_S (fuel : nat) (acc : AvailableFiles) (dir baseDir : string) :
  fill (S fuel) acc dir baseDir
  = (dirPaths ← readdir fs dir;
     forEachAsync (fs_settled fs) (visit fuel dir baseDir) acc dirPaths).
Proof. reflexivity. Qed.

Lemma readdir_Fulfilled (dir : string) (names : list string) :
  readdir fs dir = Fulfilled names ↔ fs_readdir fs dir = Some names.
Proof. unfold readdir. destruct (fs_readdir fs dir); split; congruence. Qed.

Lemma readdir_Rejected (dir : string) (e : BuildError) :
  readdir fs dir = Rejected e ↔ fs_readdir fs dir = None ∧ e = ReaddirFailed dir.
Proof.
  unfold readdir. destruct (fs_readdir fs dir); split; try congruence.
  - by intros [? _].
  - by intros [= <-].
  - by intros [_ ->].
Qed.

Lemma readdir_not_OutOfFuel (dir : string) : readdir fs dir ≠ OutOfFuel.
Proof. unfold readdir. by destruct (fs_readdir fs dir). Qed.

(** The three ways an entry is visited with success. *)
Lemma visitEntry_Fulfilled (fuel : nat) (dir baseDir : string) (acc acc' : AvailableFiles)
    (name : string) :
  visit fuel dir baseDir acc name = Fulfilled acc' →
  ∃ stats, fs_stat fs (NodePath.join dir name) = Some stats ∧
    ((st_isDirectory stats = true ∧
      fill fuel acc (NodePath.join dir name) baseDir = Fulfilled acc') ∨
     (st_isDirectory stats = false ∧
      isCompressedFile (NodePath.join dir name) = true ∧ acc' = acc) ∨
     (st_isDirectory stats = false ∧
      isCompressedFile (NodePath.join dir name) = false ∧
      ∃ file, fileInfo (NodePath.join dir name) stats = Fulfilled file ∧
              acc' = <[JsString.substr (NodePath.join dir name) (String.length baseDir) := file]> acc)).
Proof.
  unfold visitEntry. cbv zeta. intros H.
  apply await_Fulfilled in H as (stats & Hstat & H). apply stat_Fulfilled in Hstat.
  exists stats. split; [done |].
  destruct (st_isDirectory stats); [by left | right].
  destruct (isCompressedFile (NodePath.join dir name)); cbn in H.
  - left. by injection H as <-.
  - right. apply await_Fulfilled in H as (file & Hfile & [= <-]). eauto.
Qed.

Lemma visitEntry_Rejected (fuel : nat) (dir baseDir : string) (acc : AvailableFiles)
    (name : string) (e : BuildError) :
  visit fuel dir baseDir acc name = Rejected e →
  (fs_stat fs (NodePath.join dir name) = None ∧ e = StatFailed (NodePath.join dir name)) ∨
  ∃ stats, fs_stat fs (NodePath.join dir name) = Some stats ∧
    ((st_isDirectory stats = true ∧
      fill fuel acc (NodePath.join dir name) baseDir = Rejected e) ∨
     (st_isDirectory stats = false ∧
      isCompressedFile (NodePath.join dir name) = false ∧
      fileInfo (NodePath.join dir name) stats = Rejected e)).
Proof.
  unfold visitEntry. cbv zeta. intros H.
  apply await_Rejected in H as [Hstat | (stats & Hstat & H)].
  { left. by apply stat_Rejected. }
  apply stat_Fulfilled in Hstat. right. exists stats. split; [done |].
  destruct (st_isDirectory stats); [by left | right].
  destruct (isCompressedFile (NodePath.join dir name)); cbn in H; [done |].
  apply await_Rejected in H as [H | (file & _ & [=])]. done.
Qed.

Lemma visitEntry_OutOfFuel (fuel : nat) (dir baseDir : string) (acc : AvailableFiles)
    (name : string) :
  visit fuel dir baseDir acc name = OutOfFuel →
  ∃ stats, fs_stat fs (NodePath.join dir name) = Some stats ∧
           st_isDirectory stats = true ∧
           fill fuel acc (NodePath.join dir name) baseDir = OutOfFuel.
Proof.
  unfold visitEntry. cbv zeta. intros H.
  apply await_OutOfFuel in H as [Hstat | (stats & Hstat & H)].
  { by apply stat_not_OutOfFuel in Hstat. }
  apply stat_Fulfilled in Hstat. exists stats. split; [done |].
  destruct (st_isDirectory stats); [done |].
  destruct (isCompressedFile (NodePath.join dir name)); cbn in H; [done |].
  apply await_OutOfFuel in H as [H | (file & _ & [=])].
  by apply getFilePathInfo_not_OutOfFuel in H.
Qed.

(** *** Every key of a fulfilled walk was assigned by the walk *)

Lemma fill_sound (root baseDir : string) (fuel : nat) :
  ∀ depth dir acc acc',
    Walked fs root depth dir →
    fill fuel acc dir baseDir = Fulfilled acc' →
    ∀ k file, acc' !! k = Some file →
              acc !! k = Some file ∨ indexed root baseDir k file.
Proof.
  induction fuel as [|fuel IH]; intros depth dir acc acc' Hdir Hrun; [done |].
  rewrite fill_S in Hrun.
  apply await_Fulfilled in Hrun as (names & Hnames & Hrun).
  apply readdir_Fulfilled in Hnames.
  apply (forEachAsync_invariant _ _
           (λ a, ∀ k file, a !! k = Some file →
                           acc !! k = Some file ∨ indexed root baseDir k file)
           _ _ _ Hrun); [by left |].
  intros a name a' Hname Ha Hvisit k file Hk.
  apply visitEntry_Fulfilled in Hvisit
    as (stats & Hstat & [(Hd & Hsub) | [(Hd & Hc & ->) | (Hd & Hc & f & Hf & ->)]]).
  - destruct (IH (S depth) _ _ _ (walked_sub fs root _ _ _ _ _ Hdir Hnames Hname Hstat Hd)
                 Hsub k file Hk) as [Hold | Hnew]; [by apply Ha | by right].
  - by apply Ha.
  - apply lookup_insert_Some in Hk as [[<- <-] | [_ Hk]]; [|by apply Ha].
    right. by econstructor.
Qed.

(** *** A fulfilled walk met no failure *)

Lemma fill_Fulfilled_entries (fuel : nat) (acc acc' : AvailableFiles) (dir baseDir : string) :
  fill fuel acc dir baseDir = Fulfilled acc' →
  ∃ names, fs_readdir fs dir = Some names ∧
    ∀ name, name ∈ names →
      ∃ stats, fs_stat fs (NodePath.join dir name) = Some stats ∧
        (st_isDirectory stats = true →
           ∃ fuel' a a', fill fuel' a (NodePath.join dir name) baseDir = Fulfilled a') ∧
        (st_isDirectory stats = false →
         isCompressedFile (NodePath.join dir name) = false →
           ∃ file, fileInfo (NodePath.join dir name) stats = Fulfilled file).
Proof.
  destruct fuel as [|fuel]; [done |]. rewrite fill_S. intros Hrun.
  apply await_Fulfilled in Hrun as (names & Hnames & Hrun).
  apply readdir_Fulfilled in Hnames. exists names. split; [done |].
  intros name Hname.
  destruct (forEachAsync_each_fulfilled _ _ _ _ _ Hrun name Hname) as (a & a' & Hvisit).
  apply visitEntry_Fulfilled in Hvisit
    as (stats & Hstat & [(Hd & Hsub) | [(Hd & Hc & ->) | (Hd & Hc & f & Hf & ->)]]);
    exists stats; (split; [done |]); split; intros; try congruence; eauto.
Qed.

Lemma walked_Fulfilled (root baseDir : string) (depth : nat) (dir : string) :
  Walked fs root depth dir →
  (∃ fuel a a', fill fuel a root baseDir = Fulfilled a') →
  ∃ fuel a a', fill fuel a dir baseDir = Fulfilled a'.
Proof.
  intros Hdir Hroot. induction Hdir as [|depth dir names name stats Hdir IH Hnames Hname Hstat Hd];
    [done |].
  destruct IH as (fuel & a & a' & Hrun).
  apply fill_Fulfilled_entries in Hrun as (names' & Hnames' & Hall).
  assert (names' = names) as -> by congruence.
  destruct (Hall name Hname) as (stats' & Hstat' & Hsub & _).
  assert (stats' = stats) as -> by congruence.
  by apply Hsub.
Qed.

Lemma Fulfilled_no_failure (root baseDir : string) (fuel : nat) (acc acc' : AvailableFiles)
    (e : BuildError) :
  fill fuel acc root baseDir = Fulfilled acc' → ¬ Fails fs root e.
Proof.
  intros Hrun Hfail.
  assert (Hroot : ∃ fuel a a', fill fuel a root baseDir = Fulfilled a') by eauto.
  destruct Hfail as [depth dir Hdir Hnone
                    | depth dir names name Hdir Hnames Hname Hnone
                    | depth dir names name stats ext Hdir Hnames Hname Hstat Hd Hc Hext Ha Hnone];
    destruct (walked_Fulfilled root baseDir depth dir Hdir Hroot) as (fuel' & a & a' & Hsub);
    apply fill_Fulfilled_entries in Hsub as (names' & Hnames' & Hall).
  - congruence.
  - assert (names' = names) as -> by congruence.
    destruct (Hall name Hname) as (stats & Hstat & _). congruence.
  - assert (names' = names) as -> by congruence.
    destruct (Hall name Hname) as (stats' & Hstat' & _ & Hfile).
    assert (stats' = stats) as -> by congruence.
    destruct (Hfile Hd Hc) as (file & Hinfo).
    apply getFilePathInfo_Fulfilled in Hinfo.
    destruct Hinfo as (_ & _ & _ & _ & _ & _ & _ & Hsib).
    by apply (Hsib ext Hext Ha).
Qed.

(** *** A rejected walk names a failure it encountered *)

Lemma getFilePathInfo_gzip_fails (p : string) (stats : Stats) :
  fs_access fs (p +:+ ".gz") = true → fs_stat fs (p +:+ ".gz") = None →
  fileInfo p stats = Rejected (StatFailed (p +:+ ".gz")).
Proof.
  intros Ha Hs. unfold getFilePathInfo, fileExists, stat. cbv zeta. by rewrite Ha, Hs.
Qed.

Lemma getFilePathInfo_brotli_fails (p : string) (stats : Stats) :
  ¬ (fs_access fs (p +:+ ".gz") = true ∧ fs_stat fs (p +:+ ".gz") = None) →
  fs_access fs (p +:+ ".br") = true → fs_stat fs (p +:+ ".br") = None →
  fileInfo p stats = Rejected (StatFailed (p +:+ ".br")).
Proof.
  intros Hn Ha Hs. unfold getFilePathInfo, fileExists, stat. cbv zeta. rewrite Ha, Hs.
  destruct (fs_access fs (p +:+ ".gz")); [|done].
  destruct (fs_stat fs (p +:+ ".gz")); [done | by destruct Hn].
Qed.

Lemma getFilePathInfo_Rejected_first (p : string) (stats : Stats) (e : BuildError) :
  fileInfo p stats = Rejected e →
  (fs_access fs (p +:+ ".gz") = true ∧ fs_stat fs (p +:+ ".gz") = None ∧
   e = StatFailed (p +:+ ".gz")) ∨
  (¬ (fs_access fs (p +:+ ".gz") = true ∧ fs_stat fs (p +:+ ".gz") = None) ∧
   fs_access fs (p +:+ ".br") = true ∧ fs_stat fs (p +:+ ".br") = None ∧
   e = StatFailed (p +:+ ".br")).
Proof.
  unfold getFilePathInfo. cbv zeta. intros H.
  apply await_Rejected in H as [Hgz | (gz & Hgz & H)].
  { apply sibling_Rejected in Hgz. by left. }
  apply await_Rejected in H as [Hb | (b & _ & [=])].
  apply sibling_Rejected in Hb. apply sibling_Fulfilled in Hgz. right. split; [|done].
  intros [Hag Hsg]. destruct Hgz as [[? _] | (_ & sg & ? & _)]; congruence.
Qed.

Lemma Encountered_Fails (root : string) (e : BuildError) :
  Encountered fs root e → Fails fs root e.
Proof.
  intros (depth & dir & Hdir & Hin).
  destruct Hin as [Hnone
                  | names name Hnames Hname Hnone
                  | names name stats Hnames Hname Hstat Hd Hc Ha Hnone
                  | names name stats Hnames Hname Hstat Hd Hc _ Ha Hnone].
  - by eapply fails_readdir.
  - by eapply fails_stat.
  - eapply (fails_sibling fs root depth dir names name stats ".gz"); try done.
    by constructor.
  - eapply (fails_sibling fs root depth dir names name stats ".br"); try done.
    by do 2 constructor.
Qed.

Lemma Fails_Encountered (root : string) (e : BuildError) :
  Fails fs root e → ∃ e', Encountered fs root e'.
Proof.
  intros [depth dir Hdir Hnone
         | depth dir names name Hdir Hnames Hname Hnone
         | depth dir names name stats ext Hdir Hnames Hname Hstat Hd Hc Hext Ha Hnone].
  - exists (ReaddirFailed dir), depth, dir. split; [done | by constructor].
  - eexists. exists depth, dir. split; [done | by eapply failsIn_stat].
  - destruct (fs_access fs (NodePath.join dir name +:+ ".gz")) eqn:Hag;
      [destruct (fs_stat fs (NodePath.join dir name +:+ ".gz")) as [sg|] eqn:Hsg|].
    + either_extension Hext; [congruence |].
      eexists. exists depth, dir. split; [done |].
      eapply failsIn_brotli; try done. intros [_ ?]. congruence.
    + eexists. exists depth, dir. split; [done | by eapply failsIn_gzip].
    + either_extension Hext; [congruence |].
      eexists. exists depth, dir. split; [done |].
      eapply failsIn_brotli; try done. intros [? _]. congruence.
Qed.

Lemma fill_Rejected_encountered (root baseDir : string) (fuel : nat) :
  ∀ depth dir acc e,
    Walked fs root depth dir →
    fill fuel acc dir baseDir = Rejected e → Encountered fs root e.
Proof.
  induction fuel as [|fuel IH]; intros depth dir acc e Hdir Hrun; [done |].
  rewrite fill_S in Hrun.
  apply await_Rejected in Hrun as [Hnames | (names & Hnames & Hrun)].
  { apply readdir_Rejected in Hnames as [Hnone ->].
    exists depth, dir. split; [done | by constructor]. }
  apply readdir_Fulfilled in Hnames.
  apply forEachAsync_Rejected in Hrun as (name & a & Hname & Hvisit).
  apply visitEntry_Rejected in Hvisit
    as [[Hnone ->] | (stats & Hstat & [(Hd & Hsub) | (Hd & Hc & Hinfo)])].
  - exists depth, dir. split; [done | by eapply failsIn_stat].
  - apply (IH (S depth) _ _ _ (walked_sub fs root _ _ _ _ _ Hdir Hnames Hname Hstat Hd) Hsub).
  - exists depth, dir. split; [done |].
    apply getFilePathInfo_Rejected_first in Hinfo
      as [(Ha & Hnone & ->) | (Hn & Ha & Hnone & ->)].
    + by eapply failsIn_gzip.
    + by eapply failsIn_brotli.
Qed.

Lemma fill_Rejected (root baseDir : string) (fuel : nat) :
  ∀ depth dir acc e,
    Walked fs root depth dir →
    fill fuel acc dir baseDir = Rejected e → Fails fs root e.
Proof.
  intros depth dir acc e Hdir Hrun. apply Encountered_Fails.
  by apply (fill_Rejected_encountered root baseDir fuel depth dir acc e).
Qed.

(** *** A rejected walk names the failure that settles first *)

Lemma visitEntry_settlement (fuel : nat) :
  (∀ acc acc' dir baseDir,
     settlement (fill fuel acc dir baseDir) = settlement (fill fuel acc' dir baseDir)) →
  ∀ dir baseDir a a' name,
    settlement (visit fuel dir baseDir a name) = settlement (visit fuel dir baseDir a' name).
Proof.
  intros Hfill dir baseDir a a' name. unfold visitEntry. cbv zeta.
  destruct (stat fs (NodePath.join dir name)) as [stats|e|]; cbn; [|done | done].
  destruct (st_isDirectory stats); [apply Hfill |].
  match goal with |- context [if negb ?b then _ else _] => destruct b end; cbn; [done |].
  by destruct (fileInfo (NodePath.join dir name) stats).
Qed.

Lemma fill_settlement (fuel : nat) (acc acc' : AvailableFiles) (dir baseDir : string) :
  settlement (fill fuel acc dir baseDir) = settlement (fill fuel acc' dir baseDir).
Proof.
  revert acc acc' dir baseDir.
  induction fuel as [|fuel IH]; intros acc acc' dir baseDir; [done |].
  rewrite !fill_S. destruct (readdir fs dir) as [names|e|]; cbn; [|done | done].
  apply forEachAsync_settlement. intros a a' x _. by apply visitEntry_settlement.
Qed.

Lemma visitEntry_unreadable (fuel : nat) (dir baseDir : string) (acc : AvailableFiles)
    (name : string) :
  fs_stat fs (NodePath.join dir name) = None →
  visit fuel dir baseDir acc name = Rejected (StatFailed (NodePath.join dir name)).
Proof. intros Hstat. unfold visitEntry, stat. cbv zeta. by rewrite Hstat. Qed.

Lemma visitEntry_directory (fuel : nat) (dir baseDir : string) (acc : AvailableFiles)
    (name : string) (stats : Stats) :
  fs_stat fs (NodePath.join dir name) = Some stats → st_isDirectory stats = true →
  visit fuel dir baseDir acc name = fill fuel acc (NodePath.join dir name) baseDir.
Proof.
  intros Hstat Hd. unfold visitEntry, stat. cbv zeta. rewrite Hstat.
  cbn -[isCompressedFile]. by rewrite Hd.
Qed.

Lemma visitEntry_file (fuel : nat) (dir baseDir : string) (acc : AvailableFiles)
    (name : string) (stats : Stats) :
  fs_stat fs (NodePath.join dir name) = Some stats → st_isDirectory stats = false →
  isCompressedFile (NodePath.join dir name) = false →
  visit fuel dir baseDir acc name
  = (filePathInfo ← fileInfo (NodePath.join dir name) stats;
     Fulfilled (<[JsString.substr (NodePath.join dir name) (String.length baseDir)
                  := filePathInfo]> acc)).
Proof.
  intros Hstat Hd Hc. unfold visitEntry, stat. cbv zeta. rewrite Hstat.
  cbn -[isCompressedFile]. by rewrite Hd, Hc.
Qed.

Lemma Walked_front (root : string) (depth : nat) (d : string) :
  Walked fs root depth d →
  d = root ∨
  ∃ names name stats depth',
    fs_readdir fs root = Some names ∧ name ∈ names ∧
    fs_stat fs (NodePath.join root name) = Some stats ∧
    st_isDirectory stats = true ∧
    Walked fs (NodePath.join root name) depth' d.
Proof.
  induction 1 as [|depth dir names name stats Hdir IH Hnames Hname Hstat Hd]; [by left |].
  right. destruct IH as [-> | (names' & name' & stats' & depth' & Hn & Hin & Hs & Hd' & Hw)].
  - exists names, name, stats, 0%nat. split_and!; try done. constructor.
  - exists names', name', stats', (S depth'). split_and!; try done. by econstructor.
Qed.

Lemma fill_Rejected_first (baseDir : string) (fuel : nat) :
  ∀ dir acc e,
    fill fuel acc dir baseDir = Rejected e →
    ∀ e', Encountered fs dir e' → (fs_settled fs e ≤ fs_settled fs e')%nat.
Proof.
  induction fuel as [|fuel IH]; intros dir acc e Hrun e' (depth & d & Hd & Hin); [done |].
  rewrite fill_S in Hrun.
  assert (Hsame : ∀ (names : list string) a a' x, x ∈ names →
            settlement (visit fuel dir baseDir a x) = settlement (visit fuel dir baseDir a' x)).
  { intros names a a' x _. apply visitEntry_settlement. intros. apply fill_settlement. }
  apply Walked_front in Hd
    as [-> | (names & name & stats & depth' & Hnames & Hname & Hstat & Hdir & Hsub)].
  - destruct Hin as [Hnone
                    | names name Hnames Hname Hnone
                    | names name stats Hnames Hname Hstat Hdir Hc Ha Hnone
                    | names name stats Hnames Hname Hstat Hdir Hc Hn Ha Hnone].
    + unfold readdir in Hrun. rewrite Hnone in Hrun. cbn in Hrun. by injection Hrun as <-.
    + unfold readdir in Hrun. rewrite Hnames in Hrun. cbn in Hrun.
      apply (forEachAsync_first _ _ _ _ _ (Hsame names) Hrun name acc); [done |].
      by apply visitEntry_unreadable.
    + unfold readdir in Hrun. rewrite Hnames in Hrun. cbn in Hrun.
      apply (forEachAsync_first _ _ _ _ _ (Hsame names) Hrun name acc); [done |].
      rewrite (visitEntry_file _ _ _ _ _ stats) by done.
      by rewrite getFilePathInfo_gzip_fails.
    + unfold readdir in Hrun. rewrite Hnames in Hrun. cbn in Hrun.
      apply (forEachAsync_first _ _ _ _ _ (Hsame names) Hrun name acc); [done |].
      rewrite (visitEntry_file _ _ _ _ _ stats) by done.
      by rewrite getFilePathInfo_brotli_fails.
  - unfold readdir in Hrun. rewrite Hnames in Hrun. cbn in Hrun.
    assert (Hvisit : visit fuel dir baseDir acc name
                     = fill fuel acc (NodePath.join dir name) baseDir).
    { by apply (visitEntry_directory _ _ _ _ _ stats). }
    assert (He' : Encountered fs (NodePath.join dir name) e') by (by exists depth', d).
    destruct (fill fuel acc (NodePath.join dir name) baseDir) as [a1|e1|] eqn:Hfill.
    + destruct (Fulfilled_no_failure _ _ _ _ _ e' Hfill). by apply Encountered_Fails.
    + pose proof (IH _ _ _ Hfill e' He').
      pose proof (forEachAsync_first _ _ _ _ _ (Hsame names) Hrun name acc e1 Hname Hvisit).
      lia.
    + destruct (forEachAsync_all_settle (fs_settled fs) _ _ acc (Hsame names))
        with (x := name) (a := acc); [by rewrite Hrun | done | done].
Qed.

(** *** Fuel beyond the nesting depth is enough *)

Lemma fill_not_OutOfFuel (root baseDir : string) (n : nat) :
  DepthBounded fs root n →
  ∀ fuel depth dir acc,
    Walked fs root depth dir → (n ≤ depth + fuel)%nat →
    fill fuel acc dir baseDir ≠ OutOfFuel.
Proof.
  intros Hbound. induction fuel as [|fuel IH]; intros depth dir acc Hdir Hn Hrun.
  - apply Hbound in Hdir. lia.
  - rewrite fill_S in Hrun.
    apply await_OutOfFuel in Hrun as [Hnames | (names & Hnames & Hrun)].
    { by apply readdir_not_OutOfFuel in Hnames. }
    apply readdir_Fulfilled in Hnames.
    apply forEachAsync_OutOfFuel in Hrun as (name & a & Hname & Hvisit).
    apply visitEntry_OutOfFuel in Hvisit as (stats & Hstat & Hd & Hsub).
    apply (IH (S depth) _ a (walked_sub fs root _ _ _ _ _ Hdir Hnames Hname Hstat Hd));
      [lia | done].
Qed.

(** *** What the keys and entries of a built index are *)

Lemma Walked_prefix (root : string) (depth : nat) (dir : string) :
  Walked fs root depth dir →
  ∃ r, dir = root +:+ r ∧
       (JsString.endsWithSlash root = false → r = "" ∨ JsString.startsWith "/" r = true).
Proof.
  induction 1 as [|depth dir names name stats Hdir IH Hnames Hname Hstat Hd].
  - exists "". rewrite append_empty_r. auto.
  - destruct IH as (r & -> & Hr).
    destruct (join_append (root +:+ r) name) as (s & -> & Hs).
    exists (r +:+ s). rewrite append_assoc. split; [done |].
    intros Hroot. right. destruct (Hr Hroot) as [-> | Hr'].
    + rewrite append_empty_r in Hs. rewrite append_nil. by apply Hs.
    + by apply startsWith_slash_append.
Qed.

Lemma indexed_fields (root k : string) (file : AvailableFile) :
  indexed root root k file →
  path file = root +:+ k ∧
  (JsString.endsWithSlash root = false → JsString.startsWith "/" k = true) ∧
  ∃ stats, fs_stat fs (root +:+ k) = Some stats ∧
           st_isDirectory stats = false ∧
           isCompressedFile (root +:+ k) = false ∧
           fileInfo (root +:+ k) stats = Fulfilled file.
Proof.
  intros [depth dir names name stats Hdir Hnames Hname Hstat Hd Hc Hinfo ->].
  destruct (Walked_prefix root depth dir Hdir) as (r & -> & Hr).
  destruct (join_append (root +:+ r) name) as (s & Hjoin & Hs).
  rewrite Hjoin, append_assoc in *. rewrite substr_append.
  destruct (getFilePathInfo_Fulfilled _ _ _ Hinfo) as (Hpath & _).
  split; [done |]. split; [|eauto].
  intros Hroot. destruct (Hr Hroot) as [-> | Hr'].
  - rewrite append_empty_r in Hs. rewrite append_nil. by apply Hs.
  - by apply startsWith_slash_append.
Qed.

Lemma build_entry (root : string) (fuel : nat) (index : AvailableFiles)
    (k : string) (file : AvailableFile) :
  build fuel root = Fulfilled index → index !! k = Some file →
  indexed root root k file.
Proof.
  unfold getStaticPaths. intros Hrun Hk.
  destruct (fill_sound root root fuel 0%nat root ∅ index (walked_root fs root) Hrun k file Hk)
    as [Hempty | Hindexed]; [|done].
  by rewrite lookup_empty in Hempty.
Qed.

(** Without a failure, and with fuel beyond the nesting depth, the build
    gives an index. *)
Lemma getStaticPaths_total (root : string) (n fuel : nat) :
  (∀ e, ¬ Fails fs root e) →
  DepthBounded fs root n → (n ≤ fuel)%nat →
  ∃ index, build fuel root = Fulfilled index.
Proof.
  intros Hok Hbound Hfuel.
  destruct (build fuel root) as [index | e |] eqn:Hrun; [eauto | |]; exfalso.
  - apply (Hok e).
    apply (fill_Rejected root root fuel 0%nat root ∅ e (walked_root fs root) Hrun).
  - apply (fill_not_OutOfFuel root root n Hbound fuel 0%nat root ∅ (walked_root fs root));
      [lia | done].
Qed.

(** C5: when a [readdir] or a [stat] of the walk fails anywhere under the
    root, the build is rejected and gives no index, with any amount of fuel.
    The error it is rejected with is the first one encountered: a failing
    call of the walk, and no failing call of the walk settles before it. *)
Theorem getStaticPaths_fails_as_a_whole (root : string) (failure : BuildError)
    (n fuel : nat) :
  Fails fs root failure →
  DepthBounded fs root n → (n ≤ fuel)%nat →
  (∃ e, build fuel root = Rejected e ∧
        Encountered fs root e ∧
        ∀ e', Encountered fs root e' → (fs_settled fs e ≤ fs_settled fs e')%nat) ∧
  (∀ fuel' index, build fuel' root ≠ Fulfilled index).
Proof.
  intros Hfail Hbound Hfuel.
  assert (Hnever : ∀ fuel' index, build fuel' root ≠ Fulfilled index).
  { intros fuel' index Hrun. by apply (Fulfilled_no_failure _ _ _ _ _ failure Hrun). }
  split; [|done].
  destruct (build fuel root) as [index | e |] eqn:Hrun.
  - by destruct (Hnever fuel index).
  - exists e. split; [done |]. split.
    + apply (fill_Rejected_encountered root root fuel 0%nat root ∅ e (walked_root fs root) Hrun).
    + intros e' He'. apply (fill_Rejected_first root fuel root ∅ e Hrun e' He').
  - exfalso.
    apply (fill_not_OutOfFuel root root n Hbound fuel 0%nat root ∅ (walked_root fs root));
      [lia | done].
Qed.

(** C6, as the code has it: under a root other than [/], every key of the
    built index is the rest of the file's absolute path after the root, so
    it starts with [/]; the file is not a directory and [path.extname] of it
    is neither [.gz] nor [.br], so a key ends in one of the two only for the
    dot file of that very name; and a recorded variant is the sibling
    [path+".gz"] or [path+".br"] of its entry. *)
Theorem getStaticPaths_keys (root : string) (fuel : nat) (index : AvailableFiles)
    (k : string) (file : AvailableFile) :
  JsString.endsWithSlash root = false →
  build fuel root = Fulfilled index →
  index !! k = Some file →
  path file = root +:+ k ∧
  JsString.startsWith "/" k = true ∧
  (∃ stats, fs_stat fs (path file) = Some stats ∧ st_isDirectory stats = false) ∧
  NodePath.extname (path file) ≠ ".gz" ∧
  NodePath.extname (path file) ≠ ".br" ∧
  (∀ ext, ext ∈ [".gz"; ".br"] → JsString.endsWith k ext = true →
          NodePath.lastPortion k = ext) ∧
  (∀ c, gzip file = Some c → ci_path c = path file +:+ ".gz") ∧
  (∀ c, br file = Some c → ci_path c = path file +:+ ".br").
Proof.
  intros Hroot Hrun Hk.
  destruct (indexed_fields root k file (build_entry root fuel index k file Hrun Hk))
    as (Hpath & Hslash & stats & Hstat & Hd & Hc & Hinfo).
  specialize (Hslash Hroot).
  destruct (getFilePathInfo_Fulfilled _ _ _ Hinfo)
    as (_ & _ & _ & _ & _ & Hgz & Hbr & _).
  destruct (not_compressed_extname _ (root +:+ k) eq_refl Hc) as [Hngz Hnbr].
  rewrite Hpath. split; [done |]. split; [done |]. split; [eauto |].
  split; [done |]. split; [done |]. split; [|split].
  - intros ext Hext Hends.
    rewrite <- (lastPortion_after_slash root k) by by apply startsWith_slash_hasSlash.
    apply dot_file_of_suffix; [done | |].
    + apply endsWith_suffix in Hends as [pre ->]. apply endsWith_suffix.
      exists (root +:+ pre). by rewrite append_assoc.
    + either_extension Hext; done.
  - intros c Hc'. by apply Hgz.
  - intros c Hc'. by apply Hbr.
Qed.

(** *** Every file of the walk is a key *)

Lemma visitEntry_dom (fuel : nat) :
  (∀ acc dir baseDir acc', fill fuel acc dir baseDir = Fulfilled acc' → dom acc ⊆ dom acc') →
  ∀ dir baseDir a name a',
    visit fuel dir baseDir a name = Fulfilled a' → dom a ⊆ dom a'.
Proof.
  intros Hfill dir baseDir a name a' Hvisit.
  apply visitEntry_Fulfilled in Hvisit
    as (stats & _ & [(_ & Hsub) | [(_ & _ & ->) | (_ & _ & f & _ & ->)]]).
  - by apply Hfill in Hsub.
  - done.
  - rewrite dom_insert. set_solver.
Qed.

Lemma fill_dom (fuel : nat) (acc : AvailableFiles) (dir baseDir : string)
    (acc' : AvailableFiles) :
  fill fuel acc dir baseDir = Fulfilled acc' → dom acc ⊆ dom acc'.
Proof.
  revert acc dir baseDir acc'.
  induction fuel as [|fuel IH]; intros acc dir baseDir acc' Hrun; [done |].
  rewrite fill_S in Hrun.
  apply await_Fulfilled in Hrun as (names & _ & Hrun).
  apply (forEachAsync_invariant _ _ (λ a, dom acc ⊆ dom a) _ _ _ Hrun); [done |].
  intros a name a' _ Ha Hvisit.
  apply (visitEntry_dom fuel IH) in Hvisit. set_solver.
Qed.

Lemma forEachAsync_reaches {A S : Type} (settled : BuildError → nat)
    (f : S → A → Async S) (R : S → S → Prop) (l : list A) (acc acc' : S) :
  (∀ a, R a a) → (∀ a b c, R a b → R b c → R a c) →
  (∀ a x a', f a x = Fulfilled a' → R a a') →
  forEachAsync settled f acc l = Fulfilled acc' →
  R acc acc' ∧ ∀ x, x ∈ l → ∃ a a', f a x = Fulfilled a' ∧ R a' acc'.
Proof.
  intros Hrefl Htrans Hstep. revert acc.
  induction l as [|y l IH]; intros acc Hrun.
  - cbn in Hrun. injection Hrun as <-. split; [done | set_solver].
  - apply forEachAsync_Fulfilled in Hrun as (a & Hy & Hrun).
    destruct (IH a Hrun) as [Hrest Hall]. split.
    + apply (Htrans _ a); [by eapply Hstep | done].
    + intros x Hx. apply elem_of_cons in Hx as [-> | Hx]; [eauto | by apply Hall].
Qed.

Lemma fill_reaches (fuel : nat) (acc acc' : AvailableFiles) (dir baseDir : string)
    (names : list string) (name : string) :
  fill fuel acc dir baseDir = Fulfilled acc' →
  fs_readdir fs dir = Some names → name ∈ names →
  ∃ fuel' a a', fuel = S fuel' ∧
    visit fuel' dir baseDir a name = Fulfilled a' ∧ dom a' ⊆ dom acc'.
Proof.
  destruct fuel as [|fuel]; [done |]. rewrite fill_S. intros Hrun Hnames Hname.
  apply await_Fulfilled in Hrun as (names' & Hnames' & Hrun).
  apply readdir_Fulfilled in Hnames'.
  assert (names' = names) as -> by congruence.
  destruct (forEachAsync_reaches (fs_settled fs) (visit fuel dir baseDir)
              (λ a b : AvailableFiles, dom a ⊆ dom b) names acc acc') as [_ Hall];
    [set_solver | set_solver | | done |].
  { intros a x a'. apply (visitEntry_dom fuel (fill_dom fuel)). }
  destruct (Hall name Hname) as (a & a' & Hvisit & Hdom). eauto 6.
Qed.

Lemma walked_reached (root baseDir : string) (fuel : nat) (acc index : AvailableFiles)
    (depth : nat) (dir : string) :
  fill fuel acc root baseDir = Fulfilled index →
  Walked fs root depth dir →
  ∃ fuel' a a', fill fuel' a dir baseDir = Fulfilled a' ∧ dom a' ⊆ dom index.
Proof.
  intros Hrun Hdir.
  induction Hdir as [|depth dir names name stats Hdir IH Hnames Hname Hstat Hd]; [eauto |].
  destruct IH as (fuel' & a & a' & Hsub & Hdom).
  destruct (fill_reaches _ _ _ _ _ _ _ Hsub Hnames Hname)
    as (fuel'' & a1 & a2 & _ & Hvisit & Hdom').
  apply visitEntry_Fulfilled in Hvisit
    as (stats' & Hstat' & [(_ & Hfill) | [(Hd' & _) | (Hd' & _)]]); [|congruence..].
  exists fuel'', a1, a2. split; [done |]. set_solver.
Qed.

(** The walk indexes every entry that is neither a directory nor a
    compressed file, under the rest of its path after the root, with the
    information [getFilePathInfo] gives for it. *)
Theorem getStaticPaths_complete (root : string) (fuel : nat) (index : AvailableFiles)
    (depth : nat) (dir : string) (names : list string) (name : string) (stats : Stats) :
  build fuel root = Fulfilled index →
  Walked fs root depth dir →
  fs_readdir fs dir = Some names → name ∈ names →
  fs_stat fs (NodePath.join dir name) = Some stats →
  st_isDirectory stats = false →
  isCompressedFile (NodePath.join dir name) = false →
  ∃ k file,
    NodePath.join dir name = root +:+ k ∧
    index !! k = Some file ∧
    fileInfo (NodePath.join dir name) stats = Fulfilled file.
Proof.
  intros Hrun Hdir Hnames Hname Hstat Hd Hc.
  destruct (Walked_prefix root depth dir Hdir) as (r & -> & _).
  destruct (join_append (root +:+ r) name) as (s & Hjoin & _).
  assert (Hp : NodePath.join (root +:+ r) name = root +:+ (r +:+ s)).
  { rewrite Hjoin. apply append_assoc. }
  exists (r +:+ s).
  destruct (walked_reached root root fuel ∅ index depth (root +:+ r) Hrun Hdir)
    as (fuel' & a & a' & Hsub & Hdom).
  destruct (fill_reaches _ _ _ _ _ _ _ Hsub Hnames Hname)
    as (fuel'' & a1 & a2 & _ & Hvisit & Hdom').
  apply visitEntry_Fulfilled in Hvisit
    as (stats' & Hstat' & [(Hd' & _) | [(_ & Hc' & _) | (_ & _ & f & Hf & ->)]]);
    [congruence | congruence |].
  assert (stats' = stats) as -> by congruence.
  rewrite Hp in *. rewrite substr_append in Hdom'.
  assert (Hin : r +:+ s ∈ dom index).
  { apply Hdom, Hdom'. rewrite dom_insert. set_solver. }
  apply elem_of_dom in Hin as [file Hfile].
  destruct (indexed_fields root _ file (build_entry root fuel index _ file Hrun Hfile))
    as (_ & _ & stats' & Hstat'' & _ & _ & Hinfo).
  assert (stats' = stats) as -> by congruence.
  assert (file = f) as -> by congruence.
  exists f. split; [done |]. split; done.
Qed.

(** *** Compressed siblings *)

(** [getFilePathInfo] records a variant exactly when [fileExists] finds the
    sibling, under the sibling's path and with the size [stat] gives it. *)
Theorem getFilePathInfo_records_siblings (p : string) (stats : Stats) (file : AvailableFile) :
  fileInfo p stats = Fulfilled file →
  (is_Some (gzip file) ↔ fileExists fs (p +:+ ".gz") = true) ∧
  (is_Some (br file) ↔ fileExists fs (p +:+ ".br") = true) ∧
  (∀ c, gzip file = Some c →
        ci_path c = p +:+ ".gz" ∧ ∃ s, fs_stat fs (p +:+ ".gz") = Some s ∧ ci_size c = st_size s) ∧
  (∀ c, br file = Some c →
        ci_path c = p +:+ ".br" ∧ ∃ s, fs_stat fs (p +:+ ".br") = Some s ∧ ci_size c = st_size s).
Proof.
  intros Hinfo.
  destruct (getFilePathInfo_Fulfilled _ _ _ Hinfo) as (_ & _ & _ & _ & _ & Hgz & Hbr & _).
  unfold getFilePathInfo in Hinfo. cbv zeta in Hinfo.
  apply await_Fulfilled in Hinfo as (gz & Hgz' & Hinfo).
  apply await_Fulfilled in Hinfo as (b & Hb' & Hinfo).
  injection Hinfo as <-. cbn in *.
  apply sibling_Fulfilled in Hgz', Hb'. unfold fileExists.
  split; [|split; [|done]].
  - destruct Hgz' as [[-> ->] | (-> & s & _ & ->)]; split; try done; by intros [? ?].
  - destruct Hb' as [[-> ->] | (-> & s & _ & ->)]; split; try done; by intros [? ?].
Qed.

(** [getFilePathInfo] is rejected exactly when a sibling that [fileExists]
    found cannot be examined by [stat]; the gzip sibling is examined first,
    so its failure is the one reported. *)
Theorem getFilePathInfo_rejection (p : string) (stats : Stats) (e : BuildError) :
  let unreadable q := fileExists fs q = true ∧ fs_stat fs q = None in
  fileInfo p stats = Rejected e
  ↔ (unreadable (p +:+ ".gz") ∧ e = StatFailed (p +:+ ".gz")) ∨
    (¬ unreadable (p +:+ ".gz") ∧ unreadable (p +:+ ".br") ∧ e = StatFailed (p +:+ ".br")).
Proof.
  cbv zeta. unfold fileExists. split.
  - unfold getFilePathInfo. cbv zeta. intros H.
    apply await_Rejected in H as [Hgz | (gz & Hgz & H)].
    { apply sibling_Rejected in Hgz as (Ha & Hs & ->). by left. }
    apply await_Rejected in H as [Hb | (b & _ & [=])].
    apply sibling_Rejected in Hb as (Ha & Hs & ->).
    apply sibling_Fulfilled in Hgz. right. split; [|done].
    intros [Hag Hsg]. destruct Hgz as [[? _] | (_ & sg & ? & _)]; congruence.
  - unfold getFilePathInfo, fileExists, stat. cbv zeta.
    intros [[[Ha Hs] ->] | (Hn & [Ha Hs] & ->)].
    + by rewrite Ha, Hs.
    + rewrite Ha, Hs.
      destruct (fs_access fs (p +:+ ".gz")); [|done].
      destruct (fs_stat fs (p +:+ ".gz")); [done | by destruct Hn].
Qed.

(** *** When the build gives an index *)

(** With fuel beyond the nesting depth, the build gives an index exactly when
    no [readdir] and no [stat] of the walk fails. *)
Theorem getStaticPaths_succeeds_iff (root : string) (n fuel : nat) :
  DepthBounded fs root n → (n ≤ fuel)%nat →
  (∃ index, build fuel root = Fulfilled index) ↔ (∀ e, ¬ Fails fs root e).
Proof.
  intros Hbound Hfuel. split.
  - intros [index Hrun] e. by apply (Fulfilled_no_failure _ _ _ _ _ e Hrun).
  - intros Hok. by apply (getStaticPaths_total root n fuel).
Qed.

(** *** The files [serve] opens *)

Lemma variant_of_indexed (root k : string) (file : AvailableFile) (header : option string)
    (v : Variant) :
  indexed root root k file →
  NegotiatorSpec.negotiate file header v →
  ∃ ext, ext ∈ [""; ".gz"; ".br"] ∧
         variantPath v = root +:+ k +:+ ext ∧
         is_Some (fs_stat fs (variantPath v)).
Proof.
  intros Hindexed Hv.
  destruct (indexed_fields root k file Hindexed) as (Hpath & _ & stats & Hstat & _ & _ & Hinfo).
  destruct (getFilePathInfo_Fulfilled _ _ _ Hinfo) as (_ & _ & _ & _ & _ & Hgz & Hbr & _).
  destruct Hv as [b _ Hb | g _ _ Hg | _ _]; cbn.
  - destruct (Hbr b Hb) as (Hcp & s & Hs & _). exists ".br". rewrite Hcp.
    split; [by do 3 constructor |]. split; [apply append_assoc | by rewrite Hs].
  - destruct (Hgz g Hg) as (Hcp & s & Hs & _). exists ".gz". rewrite Hcp.
    split; [by do 2 constructor |]. split; [apply append_assoc | by rewrite Hs].
  - exists "". rewrite append_empty_r, Hpath.
    split; [by constructor |]. split; [done | by rewrite Hstat].
Qed.

(** Over a built index, every file [serve] opens is, for some key of the
    index, the root followed by the key, or its [.gz] or [.br] sibling, and
    [stat] succeeded on it during the build: a request path never makes
    [serve] open another file. *)
Theorem serve_opens_indexed_files (root : string) (fuel : nat) (staticPaths : AvailableFiles)
    (options : StaticServerOptions) (readStream : string → StreamResult)
    (req : Request) (next : bool) (p : string) (outcome : StreamResult) :
  build fuel root = Fulfilled staticPaths →
  EvPipe p outcome ∈ serve staticPaths options readStream req next →
  ∃ k ext, is_Some (staticPaths !! k) ∧ ext ∈ [""; ".gz"; ".br"] ∧
           p = root +:+ k +:+ ext ∧ is_Some (fs_stat fs p).
Proof.
  intros Hrun Hin.
  destruct (getFileToServe staticPaths (index options) (fallback options) (req_path req))
    as [file|] eqn:Hfile.
  - destruct (getFileToServe_entry _ _ _ _ _ Hfile) as [k Hk].
    destruct (serve_resolved staticPaths options readStream req next file Hfile)
      as [Hs | (v & Hv & Hs)]; rewrite Hs in Hin.
    + unfold sendNotModified in Hin. set_unfold in Hin. destruct_or?; done.
    + destruct (variant_of_indexed root k file _ v (build_entry root fuel staticPaths k file Hrun Hk) Hv)
        as (ext & Hext & Hpath & Hstat).
      assert (p = variantPath v) as ->.
      { unfold streamingResponse in Hin.
        destruct (readStream (variantPath v)); set_unfold in Hin;
          destruct_or?; simplify_eq; done. }
      exists k, ext. rewrite <- Hpath. eauto.
  - rewrite (serve_unmatched _ _ _ _ _ Hfile) in Hin.
    destruct next; set_unfold in Hin; destruct_or?; done.
Qed.

(** Over a built index, a request for a key, other than [/], that does not
    carry the entry's etag is answered 200 with the file of that key or one
    of its compressed siblings. *)
Theorem indexed_key_is_served (root : string) (fuel : nat) (staticPaths : AvailableFiles)
    (options : StaticServerOptions) (readStream : string → StreamResult)
    (req : Request) (next : bool) (k : string) (file : AvailableFile) :
  build fuel root = Fulfilled staticPaths →
  staticPaths !! k = Some file → k ≠ "/" → req_path req = k →
  req_headers req !! "if-none-match" ≠ Some (etag file) →
  ∃ h ext rest,
    ext ∈ [""; ".gz"; ".br"] ∧
    serve staticPaths options readStream req next
    = EvWriteHead 200 h :: EvLogInfo h ::
      EvPipe (root +:+ k +:+ ext) (readStream (root +:+ k +:+ ext)) :: rest.
Proof.
  intros Hrun Hk Hne Hreq Hetag.
  assert (Hfile : getFileToServe staticPaths (index options) (fallback options) (req_path req)
                  = Some file).
  { rewrite Hreq. by apply getFileToServe_exact. }
  destruct (serve_streams staticPaths options readStream req next file Hfile Hetag)
    as (v & Hv & Hs).
  destruct (variant_of_indexed root k file _ v (build_entry root fuel staticPaths k file Hrun Hk) Hv)
    as (ext & Hext & Hpath & _).
  rewrite Hs. unfold streamingResponse. rewrite Hpath. eauto 6.
Qed.

(** *** The files the compression tool writes *)

(** The two files [compressFile] writes for a file are the siblings the
    builder looks for: once they are on disk with the content written,
    [getFilePathInfo] records the gzip and the brotli variant with the sizes
    the tool reports, and neither written file is indexed on its own. *)
Theorem compressFile_writes_the_siblings (readFile : string → option string)
    (brotliCompress gzipCompress : string → option string)
    (writeFile : string → string → bool) (source : Compressor.CompressibleFile)
    (written : list (string * string)) (result : Compressor.CompressedFile)
    (stats : Stats) :
  Compressor.compressFile readFile brotliCompress gzipCompress writeFile source
  = (written, Some result) →
  (∀ q content, (q, content) ∈ written →
     fs_access fs q = true ∧
     ∃ s, fs_stat fs q = Some s ∧ st_size s = Compressor.byteLength content) →
  NodePath.lastPortion (Compressor.absolutePath source) ≠ "" →
  (∃ file,
     fileInfo (Compressor.absolutePath source) stats = Fulfilled file ∧
     gzip file = Some (mkCompressedInfo (Compressor.absolutePath source +:+ ".gz")
                                        (Compressor.gzipSize result)) ∧
     br file = Some (mkCompressedInfo (Compressor.absolutePath source +:+ ".br")
                                      (Compressor.brotliSize result))) ∧
  (∀ q content, (q, content) ∈ written → isCompressedFile q = true).
Proof.
  unfold Compressor.compressFile. intros Hrun Hdisk Hname.
  destruct (readFile _) as [file|]; [|done].
  destruct (brotliCompress file) as [brotli|]; [|done].
  destruct (gzipCompress file) as [gz|]; [|done].
  cbv zeta in Hrun. destruct (_ && _); [|done]. injection Hrun as <- <-. cbn.
  set (p := Compressor.absolutePath source) in *.
  destruct (Hdisk (p +:+ ".br") brotli) as (Hab & sb & Hsb & Hlb); [by constructor |].
  destruct (Hdisk (p +:+ ".gz") gz) as (Hag & sg & Hsg & Hlg); [by do 2 constructor |].
  split.
  - eexists. unfold getFilePathInfo, fileExists, stat. cbv zeta.
    rewrite Hag, Hsg, Hab, Hsb. cbn. rewrite Hlg, Hlb. done.
  - intros q content Hin. unfold isCompressedFile.
    apply elem_of_cons in Hin as [[= -> _] | Hin].
    { by rewrite (extname_of_suffix p "br"). }
    apply elem_of_cons in Hin as [[= -> _] | Hin]; [|by apply elem_of_nil in Hin].
    by rewrite (extname_of_suffix p "gz").
Qed.

(** *** The entries mirror the file system *)

(** The entry of a key holds what the file system said of the file during the
    build: the size and the modification time of its [stat], and the content
    type of its path. *)
Theorem getStaticPaths_entries (root : string) (fuel : nat) (index : AvailableFiles)
    (k : string) (file : AvailableFile) :
  build fuel root = Fulfilled index →
  index !! k = Some file →
  ∃ stats,
    fs_stat fs (root +:+ k) = Some stats ∧
    st_isDirectory stats = false ∧
    size file = st_size stats ∧
    modifiedTime file = toUTCString (st_mtime stats) ∧
    contentType file = mime_getType (root +:+ k).
Proof.
  intros Hrun Hk.
  destruct (indexed_fields root k file (build_entry root fuel index k file Hrun Hk))
    as (_ & _ & stats & Hstat & Hd & _ & Hinfo).
  destruct (getFilePathInfo_Fulfilled _ _ _ Hinfo) as (_ & Hct & Hsize & Hmod & _).
  exists stats. done.
Qed.

End OneFileSystem.

End BuilderFacts.

(** C4: the etag of an entry is the hexadecimal rendering of the seeded hash
    of the file's absolute path, size and modification time in milliseconds;
    two builds, over any two file systems and with any content types and
    date formats, give the same etag to a key whose file has the same size
    and modification time in both. *)
Theorem etag_deterministic (xxhash_h32 : string → Z → Z)
    (mime1 mime2 : string → option string) (date1 date2 : Z → string)
    (fs1 fs2 : FileSystem) (fuel1 fuel2 : nat) (root : string)
    (index1 index2 : AvailableFiles) (k : string) (file1 file2 : AvailableFile) :
  getStaticPaths mime1 xxhash_h32 date1 fs1 fuel1 root = Fulfilled index1 →
  getStaticPaths mime2 xxhash_h32 date2 fs2 fuel2 root = Fulfilled index2 →
  index1 !! k = Some file1 →
  index2 !! k = Some file2 →
  (∀ s1 s2, fs_stat fs1 (root +:+ k) = Some s1 → fs_stat fs2 (root +:+ k) = Some s2 →
            st_size s1 = st_size s2 ∧ st_mtime s1 = st_mtime s2) →
  etag file1 = etag file2 ∧
  ∃ s1, fs_stat fs1 (root +:+ k) = Some s1 ∧
        etag file1
        = toString16
            (xxhash_h32
               ((root +:+ k) +:+ "-" +:+ numberToString (st_size s1) +:+ "-" +:+
                numberToString (st_mtime s1))
               0xabcd).
Proof.
  intros Hrun1 Hrun2 Hk1 Hk2 Hsame.
  destruct (indexed_fields _ _ _ fs1 root k file1 (build_entry _ _ _ fs1 root fuel1 index1 k file1 Hrun1 Hk1))
    as (_ & _ & s1 & Hs1 & _ & _ & Hinfo1).
  destruct (indexed_fields _ _ _ fs2 root k file2 (build_entry _ _ _ fs2 root fuel2 index2 k file2 Hrun2 Hk2))
    as (_ & _ & s2 & Hs2 & _ & _ & Hinfo2).
  destruct (getFilePathInfo_Fulfilled _ _ _ _ _ _ _ Hinfo1) as (_ & _ & _ & _ & He1 & _).
  destruct (getFilePathInfo_Fulfilled _ _ _ _ _ _ _ Hinfo2) as (_ & _ & _ & _ & He2 & _).
  destruct (Hsame s1 s2 Hs1 Hs2) as [Hsize Hmtime].
  split.
  - rewrite He1, He2. by rewrite Hsize, Hmtime.
  - exists s1. split; [done |]. by rewrite He1.
Qed.

(** ** The resolver and the negotiator on small inputs *)

Example resolve_root :
  getFileToServe Sample.pages "index.html" None "/" = Some Sample.home.
Proof. reflexivity. Qed.

Example resolve_directory_without_slash :
  getFileToServe {[ "/docs/index.html" := Sample.home ]} "index.html" None "/docs"
  = Some Sample.home.
Proof. reflexivity. Qed.

Example resolve_directory_with_slash :
  getFileToServe {[ "/docs/index.html" := Sample.home ]} "index.html" None "/docs/"
  = Some Sample.home.
Proof. reflexivity. Qed.

Example resolve_fallback :
  getFileToServe Sample.pages "index.html" (Some "/index.html") "/nonexistent"
  = Some Sample.home.
Proof. reflexivity. Qed.

Example resolve_nothing :
  getFileToServe Sample.pages "index.html" None "/nonexistent" = None.
Proof. reflexivity. Qed.

(** Containment is all that is tested: a zero quality value, or a longer
    word around the token, still selects the variant. *)
Example negotiate_ignores_quality :
  fst (sendFile Sample.readStream Sample.home ∅
         (mkRequest "/" {[ "accept-encoding" := "br;q=0, gzip" ]}))
  = [EvWriteHead 200
       (<["content-length" := HNum 300]> {[ "content-encoding" := HStr "br" ]});
     EvLogInfo
       (<["content-length" := HNum 300]> {[ "content-encoding" := HStr "br" ]});
     EvPipe "/srv/index.html.br" (StreamFinished "bytes of /srv/index.html.br")].
Proof. reflexivity. Qed.

Example negotiate_gzip_only :
  fst (sendFile Sample.readStream Sample.mirrorHome ∅
         (mkRequest "/" {[ "accept-encoding" := "gzip, br" ]}))
  = [EvWriteHead 200
       (<["content-length" := HNum 420]> {[ "content-encoding" := HStr "gzip" ]});
     EvLogInfo
       (<["content-length" := HNum 420]> {[ "content-encoding" := HStr "gzip" ]});
     EvPipe "/srv/index.html.gz" (StreamFinished "bytes of /srv/index.html.gz")].
Proof. reflexivity. Qed.

Example negotiate_identity :
  fst (sendFile Sample.readStream Sample.home ∅ (mkRequest "/" {[ "accept-encoding" := "deflate" ]}))
  = [EvWriteHead 200 {[ "content-length" := HNum 1000 ]};
     EvLogInfo {[ "content-length" := HNum 1000 ]};
     EvPipe "/srv/index.html" (StreamFinished "bytes of /srv/index.html")].
Proof. reflexivity. Qed.

Example cache_control_default :
  getHeaders Sample.home Sample.options !! "cache-control"
  = Some (HStr "no-cache, must-revalidate, max-age=1209600").
Proof. reflexivity. Qed.

(** ** The theorems on the sample site *)

(** The revalidation of the sample page is answered 304. *)
Lemma serve_conditional_request_witness :
  serve Sample.pages Sample.options Sample.readStream Sample.revalidation false
  = [EvWriteHead 304 (getHeaders Sample.home Sample.options);
     EvLogInfo (getHeaders Sample.home Sample.options);
     EvEnd ""].
Proof.
  refine (proj1 (serve_conditional_request Sample.pages Sample.options Sample.readStream
                   Sample.revalidation false Sample.home _) _);
    reflexivity.
Defined.


(** The first visit of the sample page is served from its brotli sibling. *)
Lemma serve_streamed_response_witness :
  ∃ h rest,
    serve Sample.pages Sample.options Sample.readStream Sample.firstVisit false
    = EvWriteHead 200 h :: rest ∧
    h !! "content-encoding" = Some (HStr "br") ∧
    h !! "content-length" = Some (HNum 300).
Proof.
  destruct (serve_streamed_response Sample.pages Sample.options Sample.readStream
              Sample.firstVisit false Sample.home)
    as (v & h & rest & _ & Hserve & _ & _ & _ & _ & _ & Hbr).
  - reflexivity.
  - discriminate.
  - exists h, (EvLogInfo h :: EvPipe (variantPath v) (Sample.readStream (variantPath v)) :: rest).
    split; [exact Hserve |].
    apply (Hbr "gzip, deflate, br" (mkCompressedInfo "/srv/index.html.br" 300)
             (mkCompressedInfo "/srv/index.html.gz" 400)); try reflexivity.
    by exists "gzip, deflate, ", "".
Defined.

(** The 304 head of the revalidation has no length and no encoding. *)
Lemma serve_not_modified_headers_witness :
  getHeaders Sample.home Sample.options !! "content-length" = None ∧
  getHeaders Sample.home Sample.options !! "content-encoding" = None.
Proof.
  destruct (serve_not_modified_headers Sample.pages Sample.options Sample.readStream
              Sample.revalidation false (getHeaders Sample.home Sample.options))
    as (Hlen & Henc & _).
  - apply list_elem_of_here.
  - by split.
Defined.

(** The indexes of the sample trees. *)
Lemma site_index :
  getStaticPaths Sample.mime Sample.hash Sample.date Sample.site 2 "/srv"
  = Fulfilled Sample.siteIndex.
Proof. vm_compute. reflexivity. Qed.

Lemma mirror_index :
  getStaticPaths Sample.mime Sample.hash Sample.date Sample.mirror 1 "/srv"
  = Fulfilled Sample.mirrorIndex.
Proof. vm_compute. reflexivity. Qed.

(** The page has the same etag in the two trees. *)
Lemma etag_deterministic_witness :
  etag Sample.home = etag Sample.mirrorHome ∧
  ∃ s1, fs_stat Sample.site ("/srv" +:+ "/index.html") = Some s1 ∧
        etag Sample.home
        = toString16
            (Sample.hash
               (("/srv" +:+ "/index.html") +:+ "-" +:+ numberToString (st_size s1) +:+ "-" +:+
                numberToString (st_mtime s1))
               0xabcd).
Proof.
  apply (etag_deterministic Sample.hash Sample.mime Sample.mime Sample.date Sample.date
           Sample.site Sample.mirror 2 1 "/srv" Sample.siteIndex Sample.mirrorIndex
           "/index.html" Sample.home Sample.mirrorHome).
  - vm_compute. reflexivity.
  - vm_compute. reflexivity.
  - reflexivity.
  - reflexivity.
  - intros s1 s2 H1 H2. vm_compute in H1, H2.
    injection H1 as <-. injection H2 as <-. split; reflexivity.
Defined.

(** The tree with the two entries that cannot be read gives no index, and
    the build is rejected with the failure that settles first. *)
Lemma getStaticPaths_fails_as_a_whole_witness :
  (∃ e, getStaticPaths Sample.mime Sample.hash Sample.date Sample.broken 1 "/srv" = Rejected e ∧
        Encountered Sample.broken "/srv" e ∧
        ∀ e', Encountered Sample.broken "/srv" e' →
              (fs_settled Sample.broken e ≤ fs_settled Sample.broken e')%nat) ∧
  (∀ fuel' index,
     getStaticPaths Sample.mime Sample.hash Sample.date Sample.broken fuel' "/srv"
     ≠ Fulfilled index).
Proof.
  apply (getStaticPaths_fails_as_a_whole Sample.mime Sample.hash Sample.date Sample.broken
           "/srv" (StatFailed "/srv/cache") 1 1).
  - apply (fails_stat Sample.broken "/srv" 0 "/srv" ["cache"; "index.html"; "private"] "cache").
    + constructor.
    + reflexivity.
    + constructor.
    + reflexivity.
  - intros depth dir H.
    destruct H as [|depth dir names name stats _ _ _ Hstat Hd]; [lia |].
    exfalso. cbn in Hstat. apply lookup_singleton_Some in Hstat as [_ <-]. discriminate Hd.
  - lia.
Defined.

(** [cache] is listed before [private], and the [stat] of [private] is the
    first to fail: the build is rejected with it. *)
Example broken_first_error :
  getStaticPaths Sample.mime Sample.hash Sample.date Sample.broken 1 "/srv"
  = Rejected (StatFailed "/srv/private").
Proof. vm_compute. reflexivity. Qed.

(** The key of the logo in the index of the sample site. *)
Lemma getStaticPaths_keys_witness :
  path Sample.logo = "/srv" +:+ "/assets/logo.png" ∧
  JsString.startsWith "/" "/assets/logo.png" = true ∧
  (∃ stats, fs_stat Sample.site (path Sample.logo) = Some stats ∧
            st_isDirectory stats = false) ∧
  NodePath.extname (path Sample.logo) ≠ ".gz" ∧
  NodePath.extname (path Sample.logo) ≠ ".br" ∧
  (∀ ext, ext ∈ [".gz"; ".br"] → JsString.endsWith "/assets/logo.png" ext = true →
          NodePath.lastPortion "/assets/logo.png" = ext) ∧
  (∀ c, gzip Sample.logo = Some c → ci_path c = path Sample.logo +:+ ".gz") ∧
  (∀ c, br Sample.logo = Some c → ci_path c = path Sample.logo +:+ ".br").
Proof.
  apply (getStaticPaths_keys Sample.mime Sample.hash Sample.date Sample.site "/srv" 2
           Sample.siteIndex "/assets/logo.png" Sample.logo).
  - reflexivity.
  - vm_compute. reflexivity.
  - reflexivity.
Defined.

(** The index of the tree with the dot file. *)
Lemma dotFiles_index :
  getStaticPaths Sample.mime Sample.hash Sample.date Sample.dotFiles 1 "/srv"
  = Fulfilled {[ "/.gz" := Sample.dotGz ]}.
Proof. vm_compute. reflexivity. Qed.

(** C6, as stated, fails on a dot file: [path.extname] of [/srv/.gz] is
    empty, so the file is indexed, under a key that ends in [.gz]. *)
Lemma dot_file_key_ends_in_gz :
  ¬ ∀ index,
      getStaticPaths Sample.mime Sample.hash Sample.date Sample.dotFiles 1 "/srv"
      = Fulfilled index →
      KeysAsDescribed index.
Proof.
  intros Hclaim.
  destruct (Hclaim _ dotFiles_index "/.gz") as (_ & Hgz & _).
  - by rewrite lookup_singleton_eq.
  - discriminate Hgz.
Qed.

(** Served from the root [/], the walk cuts the leading slash off its keys:
    the page is recorded under [index.html], which no request path equals. *)
Remark root_directory_keys :
  getStaticPaths Sample.mime Sample.hash Sample.date Sample.rootTree 1 "/"
  = Fulfilled {[ "index.html" := Sample.rootPage ]}.
Proof. vm_compute. reflexivity. Qed.

(** ** The further theorems on the sample site *)

(** The script of the sample site is a key of its index. *)
Lemma getStaticPaths_complete_witness :
  ∃ k file,
    NodePath.join "/srv" "app.js" = "/srv" +:+ k ∧
    Sample.siteIndex !! k = Some file ∧
    getFilePathInfo Sample.mime Sample.hash Sample.date Sample.site
      (NodePath.join "/srv" "app.js") (mkStats 5000 1700000000003 false)
    = Fulfilled file.
Proof.
  apply (getStaticPaths_complete Sample.mime Sample.hash Sample.date Sample.site "/srv" 2
           Sample.siteIndex 0 "/srv"
           ["index.html"; "index.html.br"; "index.html.gz"; "app.js"; "assets"] "app.js").
  - vm_compute. reflexivity.
  - constructor.
  - reflexivity.
  - do 4 constructor.
  - reflexivity.
  - reflexivity.
  - reflexivity.
Defined.

(** The page of the sample site has both variants, as both siblings exist. *)
Lemma getFilePathInfo_records_siblings_witness :
  (is_Some (gzip Sample.home) ↔ fileExists Sample.site ("/srv/index.html" +:+ ".gz") = true) ∧
  (is_Some (br Sample.home) ↔ fileExists Sample.site ("/srv/index.html" +:+ ".br") = true) ∧
  (∀ c, gzip Sample.home = Some c →
        ci_path c = "/srv/index.html" +:+ ".gz" ∧
        ∃ s, fs_stat Sample.site ("/srv/index.html" +:+ ".gz") = Some s ∧ ci_size c = st_size s) ∧
  (∀ c, br Sample.home = Some c →
        ci_path c = "/srv/index.html" +:+ ".br" ∧
        ∃ s, fs_stat Sample.site ("/srv/index.html" +:+ ".br") = Some s ∧ ci_size c = st_size s).
Proof.
  apply (getFilePathInfo_records_siblings Sample.mime Sample.hash Sample.date Sample.site
           "/srv/index.html" (mkStats 1000 1700000000000 false) Sample.home).
  vm_compute. reflexivity.
Defined.

(** The mirror tree has no directory below its root and no failure: it gives
    an index. *)
Lemma getStaticPaths_succeeds_iff_witness :
  (∃ index,
     getStaticPaths Sample.mime Sample.hash Sample.date Sample.mirror 1 "/srv" = Fulfilled index)
  ↔ (∀ e, ¬ Fails Sample.mirror "/srv" e).
Proof.
  apply (getStaticPaths_succeeds_iff Sample.mime Sample.hash Sample.date Sample.mirror "/srv" 1 1).
  - intros depth dir H.
    destruct H as [|depth dir names name stats _ _ _ Hstat Hd]; [lia |].
    exfalso. cbn in Hstat.
    apply lookup_insert_Some in Hstat as [[_ <-] | [_ Hstat]]; [discriminate Hd |].
    apply lookup_insert_Some in Hstat as [[_ <-] | [_ Hstat]]; [discriminate Hd |].
    by rewrite lookup_empty in Hstat.
  - lia.
Defined.

(** The file opened for the first visit is the brotli sibling of a key. *)
Lemma serve_opens_indexed_files_witness :
  ∃ k ext, is_Some (Sample.siteIndex !! k) ∧ ext ∈ [""; ".gz"; ".br"] ∧
           "/srv/index.html.br" = "/srv" +:+ k +:+ ext ∧
           is_Some (fs_stat Sample.site "/srv/index.html.br").
Proof.
  apply (serve_opens_indexed_files Sample.mime Sample.hash Sample.date Sample.site "/srv" 2
           Sample.siteIndex Sample.options Sample.readStream Sample.firstVisit false
           "/srv/index.html.br" (StreamFinished "bytes of /srv/index.html.br")).
  - vm_compute. reflexivity.
  - do 3 constructor.
Defined.

(** A request for the script streams the script. *)
Lemma indexed_key_is_served_witness :
  ∃ h ext rest,
    ext ∈ [""; ".gz"; ".br"] ∧
    serve Sample.siteIndex Sample.options Sample.readStream Sample.scriptRequest false
    = EvWriteHead 200 h :: EvLogInfo h ::
      EvPipe ("/srv" +:+ "/app.js" +:+ ext)
        (Sample.readStream ("/srv" +:+ "/app.js" +:+ ext)) :: rest.
Proof.
  apply (indexed_key_is_served Sample.mime Sample.hash Sample.date Sample.site "/srv" 2
           Sample.siteIndex Sample.options Sample.readStream Sample.scriptRequest false
           "/app.js" Sample.script).
  - vm_compute. reflexivity.
  - reflexivity.
  - discriminate.
  - reflexivity.
  - discriminate.
Defined.

(** [/docs] and [/docs/] resolve to the same page. *)
Lemma getFileToServe_trailing_slash_witness :
  getFileToServe Sample.docs "index.html" None ("/docs" +:+ "/")
  = getFileToServe Sample.docs "index.html" None "/docs".
Proof.
  apply (getFileToServe_trailing_slash Sample.docs "index.html" None "/docs").
  - discriminate.
  - reflexivity.
  - reflexivity.
  - reflexivity.
Defined.

(** With the page as fallback, the missing page is answered from the index. *)
Lemma serve_with_fallback_witness :
  is_Some (getFileToServe Sample.pages (index Sample.spaOptions) (fallback Sample.spaOptions)
             (req_path Sample.missing)) ∧
  (EvNext ∉ serve Sample.pages Sample.spaOptions Sample.readStream Sample.missing true) ∧
  (∀ h, EvWriteHead 404 h
        ∉ serve Sample.pages Sample.spaOptions Sample.readStream Sample.missing true).
Proof.
  apply (serve_with_fallback Sample.pages Sample.spaOptions Sample.readStream Sample.missing
           true "/index.html" Sample.home).
  - reflexivity.
  - discriminate.
  - reflexivity.
Defined.


(** With the page as fallback, the program resolves the missing page along
    the chain. *)
Lemma getFileToServe_chain_of_own_properties_witness :
  PlainObject.getFileToServe Sample.pages "index.html" (Some "/index.html") "/nowhere"
  = PlainObject.Own <$>
      ResolverSpec.resolve "/nowhere" Sample.pages "index.html" (Some "/index.html").
Proof.
  apply (getFileToServe_chain_of_own_properties Sample.pages "index.html"
           (Some "/index.html") "/nowhere").
  - reflexivity.
  - intros fp [= <-] Hin. apply isInherited_spec in Hin. discriminate Hin.
Defined.

(** After the first visit the logger reads the brotli size and label. *)
Lemma logger_reads_streamed_variant_witness :
  ∃ v, NegotiatorSpec.negotiate Sample.home
         (req_headers Sample.firstVisit !! "accept-encoding") v ∧
    let logInfo :=
      RequestLogger.logInfoAfter
        (serve Sample.pages Sample.options Sample.readStream Sample.firstVisit false) in
    RequestLogger.getContentLength logInfo = HNum (variantSize v) ∧
    RequestLogger.getEncoding logInfo = HStr (default "no encoding" (encodingLabel v)).
Proof.
  apply (logger_reads_streamed_variant Sample.pages Sample.options Sample.readStream
           Sample.firstVisit false Sample.home).
  - reflexivity.
  - discriminate.
Defined.

(** After the 404 of the missing page the logger reads the defaults. *)
Lemma logger_reads_no_body_witness :
  let logInfo :=
    RequestLogger.logInfoAfter
      (serve Sample.pages Sample.options Sample.readStream Sample.missing false) in
  RequestLogger.getContentLength logInfo = HNum 0 ∧
  RequestLogger.getEncoding logInfo = HStr "no encoding".
Proof.
  apply (logger_reads_no_body Sample.pages Sample.options Sample.readStream Sample.missing false).
  intros p outcome Hin.
  apply elem_of_cons in Hin as [[=] | Hin].
  apply elem_of_cons in Hin as [[=] | Hin].
  by apply elem_of_nil in Hin.
Defined.

(** One state of a file, hashed from one string. *)
Lemma etag_input_injective_witness :
  "/srv/index.html" = "/srv/index.html" ∧ 1000 = 1000 ∧ 1700000000000 = 1700000000000.
Proof.
  apply (etag_input_injective "/srv/index.html" "/srv/index.html"
           1000 1700000000000 1000 1700000000000); try lia.
  reflexivity.
Defined.

(** The tool run on the page writes the two siblings the builder records. *)
Lemma compressFile_writes_the_siblings_witness :
  (∃ file,
     getFilePathInfo Sample.mime Sample.hash Sample.date Sample.compressed
       (Compressor.absolutePath Sample.pageSource) (mkStats 1000 1700000000000 false)
     = Fulfilled file ∧
     gzip file = Some (mkCompressedInfo (Compressor.absolutePath Sample.pageSource +:+ ".gz") 7) ∧
     br file = Some (mkCompressedInfo (Compressor.absolutePath Sample.pageSource +:+ ".br") 6)) ∧
  (∀ q content,
     (q, content) ∈ [("/srv/index.html.br", "brotli"); ("/srv/index.html.gz", "gzipped")] →
     isCompressedFile q = true).
Proof.
  apply (compressFile_writes_the_siblings Sample.mime Sample.hash Sample.date Sample.compressed
           Sample.readFile Sample.brotliCompress Sample.gzipCompress Sample.writeFile
           Sample.pageSource
           [("/srv/index.html.br", "brotli"); ("/srv/index.html.gz", "gzipped")]
           (Compressor.mkCompressedFile "index.html" 1000 7 6)).
  - reflexivity.
  - intros q content Hin.
    apply elem_of_cons in Hin as [[= -> ->] | Hin].
    { split; [reflexivity |]. eexists. split; reflexivity. }
    apply elem_of_cons in Hin as [[= -> ->] | Hin]; [|by apply elem_of_nil in Hin].
    split; [reflexivity |]. eexists. split; reflexivity.
  - discriminate.
Defined.

(** The entry of the logo in the index of the sample site. *)
Lemma getStaticPaths_entries_witness :
  ∃ stats,
    fs_stat Sample.site ("/srv" +:+ "/assets/logo.png") = Some stats ∧
    st_isDirectory stats = false ∧
    size Sample.logo = st_size stats ∧
    modifiedTime Sample.logo = Sample.date (st_mtime stats) ∧
    contentType Sample.logo = Sample.mime ("/srv" +:+ "/assets/logo.png").
Proof.
  apply (getStaticPaths_entries Sample.mime Sample.hash Sample.date Sample.site "/srv" 2
           Sample.siteIndex "/assets/logo.png" Sample.logo).
  - vm_compute. reflexivity.
  - reflexivity.
Defined.
